(** * A verification model of [stats.py], the snakebot statistics harness

    The script launches the game client [num_runs] times, strips terminal
    escape sequences from what each run prints, scrapes three facts with
    regular expressions (a count of delayed-move warnings, a result link and
    a winner name), prints a summary and writes [stats_game_links.txt].

    The model is a shallow embedding:
    - text is a list of Unicode code points;
    - the three [re] entry points the script uses ([re.sub] with an empty
      replacement, [re.findall], [re.search]) are backtracking matchers over
      a small regular-expression syntax, greedy and leftmost like Python's;
    - [count/num_runs*100] and its [.2f] format are binary64 arithmetic, on
      the Standard Library's specification of IEEE 754;
    - the script itself is a program in a state-and-exception monad whose
      state holds the script's global variables, the console, the output
      file and the number of child processes spawned so far; what the child
      processes do is a parameter;
    - a child is given twice: as [subprocess] holds it once its output has
      been read as text ([harness]), and as the operating system runs it,
      by its exit status and its bytes ([harness_bytes]), where reading the
      output can fail; the two agree whenever the bytes decode. *)

From Stdlib Require Import Ascii String DecimalString.
From Stdlib Require Import List ZArith NArith Lia Bool.
From Stdlib Require Import Floats.SpecFloat.
From Stdlib Require Import Reals Lra Psatz.
From Equations Require Import Equations.
Import ListNotations.

Local Open Scope string_scope.
Local Open Scope list_scope.
Local Open Scope N_scope.

(** ** Text *)

Definition text := list N.

(** A string literal of the script, as code points. *)
Definition codes (s : string) : list N :=
  map N_of_ascii (list_ascii_of_string s).

Coercion codes : string >-> list.

Definition text_eqb (a b : text) : bool :=
  if list_eq_dec N.eq_dec a b then true else false.

(** [str(n)] for a non-negative integer, and for any integer. *)
Definition dec (n : N) : text := codes (NilZero.string_of_uint (N.to_uint n)).

Definition str_int (z : Z) : text :=
  if (z <? 0)%Z then "-" ++ dec (Z.abs_N z) else dec (Z.to_N z).

Fixpoint join (sep : text) (ts : list text) : text :=
  match ts with
  | [] => []
  | [t] => t
  | t :: ts' => t ++ sep ++ join sep ts'
  end.

(** [repr] of a list of integers, as [print] shows it. *)
Definition repr_int_list (l : list Z) : text :=
  "[" ++ join ", " (map str_int l) ++ "]".

(** ** Regular expressions, with Python's matching order *)

Inductive regex : Type :=
| Eps
| Chr (c : N)
| Cls (p : N -> bool)
| Cat (r1 r2 : regex)
| Opt (r : regex)
| Rep (r : regex) (lo hi : nat)
| Plus (p : N -> bool)
| Grp (i : nat) (r : regex).

Infix "@@" := Cat (at level 60, right associativity).

Fixpoint lit (t : text) : regex :=
  match t with
  | [] => Eps
  | c :: t' => Chr c @@ lit t'
  end.

Definition captures := list (nat * text).

Definition orelse {A} (a b : option A) : option A :=
  match a with Some x => Some x | None => b end.

(** [p+] on a character class: at least one character, as many as
    possible, giving characters back one at a time when what follows fails. *)
Fixpoint plus_cls {A} (p : N -> bool) (s : text) (k : text -> option A)
  : option A :=
  match s with
  | c :: s' => if p c then orelse (plus_cls p s' k) (k s') else None
  | [] => None
  end.

(** The matcher, in continuation-passing style: [k] is what remains of the
    pattern; the first alternative tried is the one Python tries first. *)
Fixpoint rmatch {A} (r : regex) (s : text) (g : captures)
  (k : text -> captures -> option A) : option A :=
  match r with
  | Eps => k s g
  | Chr c =>
      match s with
      | x :: s' => if x =? c then k s' g else None
      | [] => None
      end
  | Cls p =>
      match s with
      | x :: s' => if p x then k s' g else None
      | [] => None
      end
  | Cat r1 r2 => rmatch r1 s g (fun s' g' => rmatch r2 s' g' k)
  | Opt r1 => orelse (rmatch r1 s g k) (k s g)
  | Rep r1 lo hi =>
      (fix rep (lo hi : nat) (s : text) (g : captures) : option A :=
         match hi with
         | O => if Nat.eqb lo 0 then k s g else None
         | S hi' =>
             orelse (rmatch r1 s g (fun s' g' => rep (pred lo) hi' s' g'))
                    (if Nat.eqb lo 0 then k s g else None)
         end) lo hi s g
  | Plus p => plus_cls p s (fun s' => k s' g)
  | Grp i r1 =>
      rmatch r1 s g
        (fun s' g' => k s' ((i, firstn (length s - length s')%nat s) :: g'))
  end.

(** A match anchored at the start of [s]: what is left, and the groups. *)
Definition match_at (r : regex) (s : text) : option (text * captures) :=
  rmatch r s [] (fun s' g => Some (s', g)).

Definition match_len (r : regex) (s : text) : option nat :=
  match match_at r s with
  | Some (rest, _) => Some (length s - length rest)%nat
  | None => None
  end.

Fixpoint group (i : nat) (g : captures) : text :=
  match g with
  | [] => []
  | (j, t) :: g' => if Nat.eqb i j then t else group i g'
  end.

(** [re.search]: the first position at which the pattern matches. *)
Fixpoint search (r : regex) (s : text) : option captures :=
  match match_at r s with
  | Some (_, g) => Some g
  | None =>
      match s with
      | [] => None
      | _ :: s' => search r s'
      end
  end.

(** [re.sub(r, "", s)] and [re.findall(r, s)] walk over the leftmost
    non-overlapping matches.  None of the script's patterns matches the empty
    string; an empty match is treated as no match at that position. *)
Equations? sub_empty (r : regex) (s : text) : text by wf (length s) lt :=
  sub_empty r [] := [];
  sub_empty r (c :: s') with match_len r (c :: s') := {
    | Some (S n) := sub_empty r (skipn n s');
    | _ := c :: sub_empty r s' }.
Proof. all: simpl; try rewrite length_skipn; lia. Qed.

Equations? findall (r : regex) (s : text) : list text by wf (length s) lt :=
  findall r [] := [];
  findall r (c :: s') with match_len r (c :: s') := {
    | Some (S n) := (c :: firstn n s') :: findall r (skipn n s');
    | _ := findall r s' }.
Proof. all: simpl; try rewrite length_skipn; lia. Qed.

(** ** The script's patterns *)

Definition ESC : N := 27.

Definition digit (c : N) : bool := (48 <=? c) && (c <=? 57).

Definition mGK (c : N) : bool := (c =? 109) || (c =? 71) || (c =? 75).

(** [.] without DOTALL *)
Definition dot (c : N) : bool := negb (c =? 10).

(** [\s] on a [str] pattern: the characters for which [str.isspace] holds. *)
Definition space (c : N) : bool :=
  ((9 <=? c) && (c <=? 13)) || ((28 <=? c) && (c <=? 32))
  || (c =? 133) || (c =? 160) || (c =? 5760)
  || ((8192 <=? c) && (c <=? 8202))
  || (c =? 8232) || (c =? 8233) || (c =? 8239) || (c =? 8287)
  || (c =? 12288).

Definition ascii_alnum (c : N) : bool :=
  digit c || ((65 <=? c) && (c <=? 90)) || ((97 <=? c) && (c <=? 122)).

(** ["\x1B\[([0-9]{1,2}(;[0-9]{1,2})?)?[mGK]"] *)
Definition ansi_re : regex :=
  Chr ESC @@ Chr 91 @@
  Opt (Grp 1 (Rep (Cls digit) 1 2 @@
              Opt (Grp 2 (Chr 59 @@ Rep (Cls digit) 1 2)))) @@
  Cls mGK.

Definition warning_phrase : text := codes "Sent move within wrong world tick".

(** [r"Sent move within wrong world tick"] *)
Definition delayed_re : regex := lit warning_phrase.

(** [r"Game result is in:\s(.+)"] *)
Definition link_re : regex :=
  lit (codes "Game result is in:") @@ Cls space @@ Grp 1 (Plus dot).

Definition strip_ansi (output : text) : text := sub_empty ansi_re output.

Definition count_delayed (output : text) : Z :=
  Z.of_nat (length (findall delayed_re output)).

(** ** Occurrences of a phrase, as the specification counts them *)

Fixpoint starts_with (p s : text) : bool :=
  match p, s with
  | [], _ => true
  | a :: p', b :: s' => (a =? b) && starts_with p' s'
  | _ :: _, [] => false
  end.

(** The positions of [s] at which [p] occurs. *)
Definition occurrences (p s : text) : list nat :=
  filter (fun i => starts_with p (skipn i s)) (seq 0 (length s)).

(** Every ESC of [s] begins a sequence the pattern matches. *)
Definition escapes_well_formed (s : text) : Prop :=
  forall pre t, s = pre ++ ESC :: t -> match_at ansi_re (ESC :: t) <> None.

Fixpoint escapes_well_formedb (s : text) : bool :=
  match s with
  | [] => true
  | c :: s' =>
      (if c =? ESC then
         match match_at ansi_re s with Some _ => true | None => false end
       else true)
      && escapes_well_formedb s'
  end.

(** ** Vocabulary for the shapes of matches *)

(** [a] is [b] with some characters deleted. *)
Inductive subsequence : text -> text -> Prop :=
| subsequence_nil : subsequence [] []
| subsequence_keep (c : N) (a b : text) :
    subsequence a b -> subsequence (c :: a) (c :: b)
| subsequence_drop (c : N) (a b : text) :
    subsequence a b -> subsequence a (c :: b).

(** The parameters an escape sequence may carry between ESC [ and its final
    letter: nothing, one or two digits, or two such numbers around a
    semicolon. *)
Definition is_params (p : text) : bool :=
  match p with
  | [] => true
  | [a] => digit a
  | [a; b] => digit a && digit b
  | [a; b; c] => digit a && (b =? 59) && digit c
  | [a; b; c; d] =>
      digit a
      && ((digit b && (c =? 59) && digit d)
          || ((b =? 59) && digit c && digit d))
  | [a; b; c; d; e] =>
      digit a && digit b && (c =? 59) && digit d && digit e
  | _ => false
  end.

(** The longest prefix of characters in a class, and what follows it. *)
Fixpoint take_while (p : N -> bool) (s : text) : text :=
  match s with
  | c :: s' => if p c then c :: take_while p s' else []
  | [] => []
  end.

Fixpoint drop_while (p : N -> bool) (s : text) : text :=
  match s with
  | c :: s' => if p c then drop_while p s' else s
  | [] => []
  end.

(** [l.count(w)] *)
Definition count_name (w : text) (l : list text) : Z :=
  Z.of_nat (length (filter (text_eqb w) l)).

(** [d.get(w, 0)] *)
Fixpoint lookup (w : text) (d : list (text * Z)) : Z :=
  match d with
  | [] => 0%Z
  | (k, v) :: d' => if text_eqb w k then v else lookup w d'
  end.

(** The distinct names of a list, in the order of their first
    appearance. *)
Definition first_seen (l : list text) : list text :=
  fold_left
    (fun keys w => if existsb (text_eqb w) keys then keys else keys ++ [w])
    l [].

(** ** Exceptions *)

Inductive exn : Type :=
| CalledProcessError (returncode : Z)
| UnicodeDecodeError
| ZeroDivisionError
| OverflowError
| ValueError
| IndexError.

Inductive result (A : Type) : Type :=
| Ok (a : A)
| Raise (e : exn).
Arguments Ok {A} a.
Arguments Raise {A} e.

(** ** Floating point: [count/num_runs*100] and the [.2f] format

    Python floats are IEEE 754 binary64; the operations are those of the
    Standard Library's executable specification, at precision 53 and
    exponent bound 1024. *)

Definition float := spec_float.

Definition int_as_float (z : Z) : float :=
  match z with
  | Z0 => S754_zero false
  | Zpos p => S754_finite false p 0
  | Zneg p => S754_finite true p 0
  end.

(** [a / b] on integers: the correctly rounded quotient. *)
Definition int_truediv (a b : Z) : result float :=
  match b with
  | Z0 => Raise ZeroDivisionError
  | _ =>
      match SFdiv 53 1024 (int_as_float a) (int_as_float b) with
      | S754_infinity _ => Raise OverflowError
      | S754_zero _ => Ok (S754_zero (xorb (a <? 0)%Z (b <? 0)%Z))
      | q => Ok q
      end
  end.

(** [x * k] for a float [x] and a small integer [k], which converts exactly. *)
Definition float_mul_int (x : float) (k : Z) : float :=
  SFmul 53 1024 x (binary_normalize 53 1024 k 0 false).

(** [a / b] rounded to the nearest integer, ties to even; [b] positive. *)
Definition div_half_even (a b : Z) : Z :=
  let q := (a / b)%Z in
  let r := (a mod b)%Z in
  match (2 * r ?= b)%Z with
  | Lt => q
  | Gt => (q + 1)%Z
  | Eq => if Z.even q then q else (q + 1)%Z
  end.

(** The magnitude of [m * 2^e] in hundredths, as [.2f] rounds it. *)
Definition hundredths (m : positive) (e : Z) : Z :=
  if (0 <=? e)%Z then (Zpos m * 100 * 2 ^ e)%Z
  else div_half_even (Zpos m * 100) (2 ^ (- e)).

Definition two_digits (n : Z) : text :=
  if (n <? 10)%Z then "0" ++ str_int n else str_int n.

Definition sign_text (s : bool) : text := if s then "-" else "".

Definition format_2f (x : float) : text :=
  match x with
  | S754_nan => "nan"
  | S754_infinity s => sign_text s ++ "inf"
  | S754_zero s => sign_text s ++ "0.00"
  | S754_finite s m e =>
      let h := hundredths m e in
      sign_text s ++ str_int (h / 100) ++ "." ++ two_digits (h mod 100)
  end.

(** [f"{count/num_runs*100:.2f}"] *)
Definition win_rate (count num_runs : Z) : result text :=
  match int_truediv count num_runs with
  | Ok q => Ok (format_2f (float_mul_int q 100))
  | Raise e => Raise e
  end.

(** The real number a mantissa and an exponent stand for. *)
Definition F2R (m e : Z) : R := (IZR m * powerRZ 2 e)%R.

(** [h] hundredths, as the format prints a non-negative value. *)
Definition two_decimals (h : Z) : text :=
  str_int (h / 100) ++ "." ++ two_digits (h mod 100).

(** ** The harness: state, child processes, the monad *)

Record state : Type := mkState {
  winners : list (text * Z);
  winner_per_game : list text;
  delayed_moves_per_game : list Z;
  game_links : list text;
  stdout : list text;
  file : option (list text);
  spawned : nat }.

Definition initial : state := mkState [] [] [] [] [] None 0.

(** What [subprocess] holds of a child once its output has been read as
    text: the exit status and the decoded output. *)
Record completed : Type := { returncode : Z; output : text }.

(** What a child leaves to the operating system: its exit status and the
    bytes it wrote to its standard output. *)
Record process : Type := { exit_status : Z; printed : list N }.

(** Text mode ([universal_newlines=True]): "\r\n" and a lone "\r" are read
    as "\n". *)
Fixpoint universal_newlines (t : text) : text :=
  match t with
  | [] => []
  | c :: t' =>
      if c =? 13 then
        10 :: match t' with
              | [] => []
              | d :: t'' =>
                  if d =? 10 then universal_newlines t''
                  else universal_newlines t'
              end
      else c :: universal_newlines t'
  end.

Definition M (A : Type) : Type := state -> result A * state.

Definition ret {A} (a : A) : M A := fun st => (Ok a, st).

Definition bind {A B} (c : M A) (f : A -> M B) : M B :=
  fun st =>
    match c st with
    | (Ok a, st') => f a st'
    | (Raise e, st') => (Raise e, st')
    end.

Definition raise {A} (e : exn) : M A := fun st => (Raise e, st).

Definition lift {A} (r : result A) : M A := fun st => (r, st).

Notation "x <- c ;; k" := (bind c (fun x => k))
  (at level 61, c at next level, right associativity).
Notation "c ;; k" := (bind c (fun _ => k))
  (at level 61, right associativity).

Fixpoint for_each {A} (xs : list A) (body : A -> M unit) : M unit :=
  match xs with
  | [] => ret tt
  | x :: xs' => body x ;; for_each xs' body
  end.

Definition range (n : nat) : list nat := seq 0 n.

Definition enumerate {A} (l : list A) : list (nat * A) :=
  combine (seq 0 (length l)) l.

Definition set_winners (d : list (text * Z)) (st : state) : state :=
  mkState d (winner_per_game st) (delayed_moves_per_game st) (game_links st)
    (stdout st) (file st) (spawned st).

Definition set_winner_per_game (l : list text) (st : state) : state :=
  mkState (winners st) l (delayed_moves_per_game st) (game_links st)
    (stdout st) (file st) (spawned st).

Definition set_delayed (l : list Z) (st : state) : state :=
  mkState (winners st) (winner_per_game st) l (game_links st)
    (stdout st) (file st) (spawned st).

Definition set_links (l : list text) (st : state) : state :=
  mkState (winners st) (winner_per_game st) (delayed_moves_per_game st) l
    (stdout st) (file st) (spawned st).

Definition set_stdout (l : list text) (st : state) : state :=
  mkState (winners st) (winner_per_game st) (delayed_moves_per_game st)
    (game_links st) l (file st) (spawned st).

Definition set_file (f : option (list text)) (st : state) : state :=
  mkState (winners st) (winner_per_game st) (delayed_moves_per_game st)
    (game_links st) (stdout st) f (spawned st).

Definition set_spawned (n : nat) (st : state) : state :=
  mkState (winners st) (winner_per_game st) (delayed_moves_per_game st)
    (game_links st) (stdout st) (file st) n.

Definition print (line : text) : M unit :=
  fun st => (Ok tt, set_stdout (stdout st ++ [line]) st).

(** [open(name, "w")]: the file exists and is empty from then on. *)
Definition open_w : M unit :=
  fun st => (Ok tt, set_file (Some []) st).

Definition write (chunk : text) : M unit :=
  fun st =>
    (Ok tt, set_file (match file st with
                      | Some chunks => Some (chunks ++ [chunk])
                      | None => None
                      end) st).

Definition append_delayed (count : Z) : M unit :=
  fun st => (Ok tt, set_delayed (delayed_moves_per_game st ++ [count]) st).

Definition append_link (link : text) : M unit :=
  fun st => (Ok tt, set_links (game_links st ++ [link]) st).

Definition append_winner (name : text) : M unit :=
  fun st => (Ok tt, set_winner_per_game (winner_per_game st ++ [name]) st).

(** [d[k] += 1] on a [defaultdict(int)], which keeps insertion order. *)
Fixpoint incr (k : text) (d : list (text * Z)) : list (text * Z) :=
  match d with
  | [] => [(k, 1%Z)]
  | (k', v) :: d' =>
      if text_eqb k k' then (k', (v + 1)%Z) :: d' else (k', v) :: incr k d'
  end.

Definition incr_winner (name : text) : M unit :=
  fun st => (Ok tt, set_winners (incr name (winners st)) st).

(** [sum(d.values())] *)
Definition total (d : list (text * Z)) : Z :=
  fold_right Z.add 0%Z (map snd d).

Definition get {A} (f : state -> A) : M A := fun st => (Ok (f st), st).

(** [max(l)] *)
Definition py_max (l : list Z) : result Z :=
  match l with
  | [] => Raise ValueError
  | x :: l' => Ok (fold_left Z.max l' x)
  end.

(** [l[i]] for a non-negative [i] *)
Definition index {A} (l : list A) (i : nat) : result A :=
  match nth_error l i with
  | Some x => Ok x
  | None => Raise IndexError
  end.

(** [f"Winner: {winner}, delayed_moves: {delayed_moves}, link: {item}\n"] *)
Definition link_line (winner : text) (delayed_moves : Z) (item : text) : text :=
  "Winner: " ++ winner ++ ", delayed_moves: " ++ str_int delayed_moves
  ++ ", link: " ++ item ++ [10].

(** ** Sample runs, used to evaluate the model *)

(** No alphanumeric characters beyond ASCII: enough for ASCII output. *)
Definition ascii_only : N -> bool := fun _ => false.

(** What a game prints: a coloured banner, some warnings, and the result
    link and the winner when they are given. *)
Definition game_output (winner : option string) (warnings : nat)
  (link : option string) : text :=
  ESC :: "[32m" ++ "snakepit/mini" ++ ESC :: "[0m" ++ [10]
  ++ List.concat (repeat ("Sent move within wrong world tick" ++ [10]) warnings)
  ++ match link with
     | Some l => "Game result is in: " ++ l ++ [10]
     | None => []
     end
  ++ match winner with
     | Some w => "The winner was " ++ w ++ [10]
     | None => []
     end.

Definition exited (status : Z) (out : text) : completed :=
  {| returncode := status; output := out |}.

(** Four games: Alice, Bob, Alice, Alice; the first and last are slow. *)
Definition four_games (k : nat) : completed :=
  match k with
  | 0%nat => exited 0 (game_output (Some "Alice") 11 (Some "http://x/1"))
  | 1%nat => exited 0 (game_output (Some "Bob") 0 (Some "http://x/2"))
  | 2%nat => exited 0 (game_output (Some "Alice") 2 (Some "http://x/3"))
  | _ => exited 0 (game_output (Some "Alice") 12 (Some "http://x/4"))
  end.

(** Four slow games that print a link but never announce a winner. *)
Definition no_winner_games (k : nat) : completed :=
  exited 0 (game_output None 11 (Some "http://x/0")).

(** Four games whose first one prints its link but no winner. *)
Definition first_winner_missing (k : nat) : completed :=
  match k with
  | 0%nat => exited 0 (game_output None 0 (Some "http://x/1"))
  | 1%nat => exited 0 (game_output (Some "Bob") 0 (Some "http://x/2"))
  | 2%nat => exited 0 (game_output (Some "Alice") 2 (Some "http://x/3"))
  | _ => exited 0 (game_output (Some "Alice") 0 (Some "http://x/4"))
  end.

(** Four games whose third one exits with status 1. *)
Definition third_game_fails (k : nat) : completed :=
  match k with
  | 2%nat => exited 1 (game_output None 0 None)
  | _ => exited 0 (game_output (Some "Alice") 0 (Some "http://x/1"))
  end.

(** The strict ASCII codec: a byte of 128 or more does not decode. *)
Definition ascii_strict (bytes : list N) : option text :=
  if forallb (fun b => b <? 128) bytes then Some bytes else None.

Definition ended (status : Z) (bytes : list N) : process :=
  {| exit_status := status; printed := bytes |}.

(** Four games whose first one exits with status 1. *)
Definition first_game_fails (k : nat) : process :=
  match k with
  | 0%nat => ended 1 (codes "npm ERR! missing script: start:dev" ++ [10])
  | _ => ended 0 (game_output (Some "Alice") 0 (Some "http://x/1"))
  end.

(** Four games whose second one exits with status 0 after printing a byte
    that is not ASCII. *)
Definition second_game_garbled (k : nat) : process :=
  match k with
  | 1%nat => ended 0 (codes "The winner was Zo" ++ [235; 10])
  | _ => ended 0 (game_output (Some "Alice") 0 (Some "http://x/1"))
  end.

(** Four games that end their lines with "\r\n". *)
Definition crlf_games (k : nat) : process :=
  ended 0 (codes "Game result is in: http://x/1" ++ [13; 10]
           ++ codes "The winner was Alice" ++ [13; 10]).

Section Harness.

(** [child k] is the [k]-th process the harness spawns, as [subprocess]
    holds it once its output has been read as text. *)
Variable child : nat -> completed.

(** [str.isalnum] beyond ASCII, from the interpreter's Unicode tables. *)
Variable unicode_alnum : N -> bool.

(** [\w] on a [str] pattern *)
Definition word (c : N) : bool :=
  if c <? 128 then ascii_alnum c || (c =? 95) else unicode_alnum c.

(** [r"The winner was (\w+)"] *)
Definition winner_re : regex :=
  lit (codes "The winner was ") @@ Grp 1 (Plus word).

(** [subprocess.check_output([...], universal_newlines=True)] for a child
    whose output has been read as text: raises when the child exits with a
    non-zero status.  The call on the child's bytes, which can fail to
    decode, is [check_output_bytes] below. *)
Definition check_output : M text :=
  fun st =>
    let p := child (spawned st) in
    let st' := set_spawned (S (spawned st)) st in
    if (returncode p =? 0)%Z then (Ok (output p), st')
    else (Raise (CalledProcessError (returncode p)), st').

Definition int_of_nat (n : nat) : Z := Z.of_nat n.

(** [f"Run {i+1}/{num_runs}..."] *)
Definition run_line (num_runs i : nat) : text :=
  "Run " ++ str_int (int_of_nat i + 1) ++ "/"
  ++ str_int (int_of_nat num_runs) ++ "...".

(** The body of the trial loop. *)
Definition trial (num_runs i : nat) : M unit :=
  print (run_line num_runs i) ;;
  output <- check_output ;;
  let output := strip_ansi output in
  let count := count_delayed output in
  append_delayed count ;;
  (match search link_re output with
   | Some link => append_link (group 1 link)
   | None => ret tt
   end) ;;
  match search winner_re output with
  | Some winner =>
      let winner_name := group 1 winner in
      append_winner winner_name ;;
      print ("Winner: " ++ winner_name) ;;
      incr_winner winner_name
  | None => ret tt
  end.

(** [f"{winner}: {count} wins ({count/num_runs*100:.2f}% win rate)"] *)
Definition rate_line (num_runs : nat) (winner : text) (count : Z)
  : result text :=
  match win_rate count (int_of_nat num_runs) with
  | Ok rate =>
      Ok (winner ++ ": " ++ str_int count ++ " wins (" ++ rate
          ++ "% win rate)")
  | Raise e => Raise e
  end.

Definition indices_over (bound : Z) (l : list Z) : list Z :=
  map (fun ix => int_of_nat (fst ix))
      (filter (fun ix => (snd ix >? bound)%Z) (enumerate l)).

(** The body of the loop over [winners.items()]. *)
Definition report (num_runs : nat) (item : text * Z) : M unit :=
  let '(winner, count) := item in
  line <- lift (rate_line num_runs winner count) ;;
  print line ;;
  delayed <- get delayed_moves_per_game ;;
  let count_non_zero := length (filter (fun x => (x >? 0)%Z) delayed) in
  most <- lift (py_max delayed) ;;
  if (most >? 10)%Z then
    print "WARNING: Some games had a lot of delayed moves!" ;;
    print (repr_int_list (indices_over 10 delayed))
  else ret tt.

(** The body of the loop that writes the links file. *)
Definition write_link (entry : nat * text) : M unit :=
  let '(i, item) := entry in
  winners_so_far <- get winner_per_game ;;
  winner <- lift (index winners_so_far i) ;;
  delayed <- get delayed_moves_per_game ;;
  delayed_moves <- lift (index delayed i) ;;
  write (link_line winner delayed_moves item).

Definition harness (num_runs : nat) : M unit :=
  for_each (range num_runs) (trial num_runs) ;;
  print "" ;;
  print "Results:" ;;
  items <- get winners ;;
  for_each items (report num_runs) ;;
  open_w ;;
  links <- get game_links ;;
  for_each (enumerate links) write_link ;;
  print "Game links can be found in stats_game_links.txt".

Definition num_runs : nat := 4.

Definition main : result unit * state := harness num_runs initial.

(** *** The script on the bytes of its children *)

Section Bytes.

(** [spawn k] is the [k]-th process the harness spawns, as the operating
    system runs it. *)
Variable spawn : nat -> process.

(** The codec of the locale with strict error handling: [None] when the
    bytes do not decode. *)
Variable decode : list N -> option text.

(** [subprocess.check_output([...], universal_newlines=True)]: the child's
    output is read as text first, which raises UnicodeDecodeError (a
    ValueError) when the bytes do not decode; then a non-zero exit status
    raises CalledProcessError. *)
Definition check_output_bytes : M text :=
  fun st =>
    let p := spawn (spawned st) in
    let st' := set_spawned (S (spawned st)) st in
    match decode (printed p) with
    | None => (Raise UnicodeDecodeError, st')
    | Some t =>
        if (exit_status p =? 0)%Z then (Ok (universal_newlines t), st')
        else (Raise (CalledProcessError (exit_status p)), st')
    end.

(** The body of the trial loop. *)
Definition trial_bytes (num_runs i : nat) : M unit :=
  print (run_line num_runs i) ;;
  output <- check_output_bytes ;;
  let output := strip_ansi output in
  let count := count_delayed output in
  append_delayed count ;;
  (match search link_re output with
   | Some link => append_link (group 1 link)
   | None => ret tt
   end) ;;
  match search winner_re output with
  | Some winner =>
      let winner_name := group 1 winner in
      append_winner winner_name ;;
      print ("Winner: " ++ winner_name) ;;
      incr_winner winner_name
  | None => ret tt
  end.

Definition harness_bytes (num_runs : nat) : M unit :=
  for_each (range num_runs) (trial_bytes num_runs) ;;
  print "" ;;
  print "Results:" ;;
  items <- get winners ;;
  for_each items (report num_runs) ;;
  open_w ;;
  links <- get game_links ;;
  for_each (enumerate links) write_link ;;
  print "Game links can be found in stats_game_links.txt".

Definition main_bytes : result unit * state := harness_bytes num_runs initial.

(** The exception with which the [k]-th child stops the run, if it does. *)
Definition stops (k : nat) : option exn :=
  match decode (printed (spawn k)) with
  | None => Some UnicodeDecodeError
  | Some _ =>
      if (exit_status (spawn k) =? 0)%Z then None
      else Some (CalledProcessError (exit_status (spawn k)))
  end.

(** The [k]-th child once its output has been read as text. *)
Definition as_text (k : nat) : completed :=
  {| returncode := exit_status (spawn k);
     output := match decode (printed (spawn k)) with
               | Some t => universal_newlines t
               | None => []
               end |}.

End Bytes.

(** *** Vocabulary for the statements below *)

(** What the [k]-th child printed, with the escape sequences removed. *)
Definition cleaned (k : nat) : text := strip_ansi (output (child k)).

(** The state a trial leaves when its child exits with status 0. *)
Definition after_trial (num_runs : nat) (st : state) (i : nat) : state :=
  let out := cleaned (spawned st) in
  let winner := search winner_re out in
  mkState
    (match winner with
     | Some g => incr (group 1 g) (winners st)
     | None => winners st
     end)
    (match winner with
     | Some g => winner_per_game st ++ [group 1 g]
     | None => winner_per_game st
     end)
    (delayed_moves_per_game st ++ [count_delayed out])
    (match search link_re out with
     | Some g => game_links st ++ [group 1 g]
     | None => game_links st
     end)
    (match winner with
     | Some g =>
         (stdout st ++ [run_line num_runs i]) ++ ["Winner: " ++ group 1 g]
     | None => stdout st ++ [run_line num_runs i]
     end)
    (file st)
    (S (spawned st)).

Definition after_trials (num_runs : nat) (trials : list nat) (st : state)
  : state :=
  fold_left (after_trial num_runs) trials st.

(** The console lines the trial loop prints. *)
Definition progress_line (l : text) : bool :=
  starts_with "Run " l || starts_with "Winner: " l.

(** The console lines one pass of the summary loop prints. *)
Definition report_lines (num_runs : nat) (delayed : list Z)
  (item : text * Z) : list text :=
  match rate_line num_runs (fst item) (snd item), py_max delayed with
  | Ok line, Ok most =>
      if (most >? 10)%Z then
        [line; codes "WARNING: Some games had a lot of delayed moves!";
         repr_int_list (indices_over 10 delayed)]
      else [line]
  | _, _ => []
  end.

(** The lines of the links file, paired by position. *)
Definition paired_lines (ws : list text) (ds : list Z) (ls : list text)
  : list text :=
  map (fun e => link_line (fst e) (fst (snd e)) (snd (snd e)))
      (combine ws (combine ds ls)).

Definition closing_line : text :=
  "Game links can be found in stats_game_links.txt".

Definition links_fit (st : state) : bool :=
  (length (game_links st) <=? length (winner_per_game st))%nat.

(** The state the summary and the file phase leave, from the state [st] at
    the end of the trial loop. *)
Definition finished (num_runs : nat) (st : state) : state :=
  set_file
    (Some (paired_lines (winner_per_game st) (delayed_moves_per_game st)
             (game_links st)))
    (set_stdout
       (stdout st ++ [[]; codes "Results:"]
        ++ flat_map (report_lines num_runs (delayed_moves_per_game st))
             (winners st)
        ++ (if links_fit st then [closing_line] else []))
       st).

(** What the trial loop maintains. *)
Record trial_inv (st : state) : Prop := {
  inv_file : file st = None;
  inv_delayed : length (delayed_moves_per_game st) = spawned st;
  inv_winner_per_game : (length (winner_per_game st) <= spawned st)%nat;
  inv_links : (length (game_links st) <= spawned st)%nat;
  inv_total : total (winners st) = Z.of_nat (length (winner_per_game st));
  inv_counts : Forall (fun item => (1 <= snd item)%Z) (winners st);
  inv_stdout : Forall (fun l => progress_line l = true) (stdout st) }.

(** * Properties *)

(** ** The matcher *)

Lemma orelse_some {A} (a b : option A) (x : A) :
  orelse a b = Some x -> a = Some x \/ b = Some x.
Proof. destruct a; simpl; intros H; [left | right]; assumption. Qed.

(** Whatever way a match succeeds, the rest of the pattern was run on a
    suffix of the text. *)
Lemma plus_cls_suffix {A} (p : N -> bool) (s : text) (k : text -> option A)
  (res : A) :
  plus_cls p s k = Some res ->
  exists c pre s', s = c :: pre ++ s' /\ k s' = Some res.
Proof.
  induction s as [|c s IH]; simpl; [discriminate|].
  destruct (p c); [|discriminate]. intros H.
  apply orelse_some in H. destruct H as [H|H].
  - destruct (IH H) as (c' & pre & s' & -> & Hk).
    exists c, (c' :: pre), s'. split; [reflexivity | assumption].
  - exists c, [], s. split; [reflexivity | assumption].
Qed.

Lemma rmatch_suffix {A} (r : regex) :
  forall (s : text) (g : captures) (k : text -> captures -> option A) res,
    rmatch r s g k = Some res ->
    exists pre s' g', s = pre ++ s' /\ k s' g' = Some res.
Proof.
  induction r as [|c|p|r1 IH1 r2 IH2|r1 IH1|r1 IH1 lo hi|p|i r1 IH1];
    intros s g k res H; simpl in H.
  - exists [], s, g. auto.
  - destruct s as [|x s]; [discriminate|]. destruct (x =? c); [|discriminate].
    exists [x], s, g. auto.
  - destruct s as [|x s]; [discriminate|]. destruct (p x); [|discriminate].
    exists [x], s, g. auto.
  - apply IH1 in H. destruct H as (pre1 & s1 & g1 & -> & H).
    apply IH2 in H. destruct H as (pre2 & s2 & g2 & -> & H).
    exists (pre1 ++ pre2), s2, g2. rewrite <- app_assoc. auto.
  - apply orelse_some in H. destruct H as [H|H].
    + apply IH1 in H. exact H.
    + exists [], s, g. auto.
  - revert lo s g H. induction hi as [|hi IHhi]; intros lo s g H.
    + destruct (Nat.eqb lo 0); [|discriminate]. exists [], s, g. auto.
    + apply orelse_some in H. destruct H as [H|H].
      * apply IH1 in H. destruct H as (pre1 & s1 & g1 & -> & H).
        apply IHhi in H. destruct H as (pre2 & s2 & g2 & -> & H).
        exists (pre1 ++ pre2), s2, g2. rewrite <- app_assoc. auto.
      * destruct (Nat.eqb lo 0); [|discriminate]. exists [], s, g. auto.
  - apply plus_cls_suffix in H. destruct H as (c & pre & s' & -> & H).
    exists (c :: pre), s', g. auto.
  - apply IH1 in H. destruct H as (pre1 & s1 & g1 & -> & H).
    eexists pre1, s1, _. split; [reflexivity | exact H].
Qed.

Lemma match_at_suffix (r : regex) (s rest : text) (g : captures) :
  match_at r s = Some (rest, g) -> exists pre, s = pre ++ rest.
Proof.
  unfold match_at. intros H. apply rmatch_suffix in H.
  destruct H as (pre & s' & g' & -> & H). inversion H; subst.
  exists pre. reflexivity.
Qed.

(** The two walks, unfolded one step. *)
Lemma sub_empty_cons (r : regex) (c : N) (s : text) :
  sub_empty r (c :: s) =
  match match_len r (c :: s) with
  | Some (S n) => sub_empty r (skipn n s)
  | _ => c :: sub_empty r s
  end.
Proof.
  simp sub_empty. destruct (match_len r (c :: s)) as [[|n]|]; reflexivity.
Qed.

Lemma findall_cons (r : regex) (c : N) (s : text) :
  findall r (c :: s) =
  match match_len r (c :: s) with
  | Some (S n) => (c :: firstn n s) :: findall r (skipn n s)
  | _ => findall r s
  end.
Proof.
  simp findall. destruct (match_len r (c :: s)) as [[|n]|]; reflexivity.
Qed.



Lemma match_at_chr_cat (c : N) (r : regex) (s rest : text) (g : captures) :
  match_at (Chr c @@ r) s = Some (rest, g) ->
  exists s1 pre, s = c :: s1 /\ s1 = pre ++ rest.
Proof.
  unfold match_at. cbn [rmatch]. destruct s as [|x s1]; [discriminate|].
  destruct (N.eqb_spec x c) as [->|_]; [|discriminate].
  intros H. apply rmatch_suffix in H.
  destruct H as (pre & s' & g' & -> & H). inversion H; subst.
  exists (pre ++ rest), pre. split; reflexivity.
Qed.

Lemma match_len_chr_cat (c : N) (r : regex) (x : N) (s : text) (n : nat) :
  match_len (Chr c @@ r) (x :: s) = Some n ->
  x = c /\ (0 < n <= S (length s))%nat.
Proof.
  unfold match_len.
  destruct (match_at (Chr c @@ r) (x :: s)) as [[rest g]|] eqn:E;
    [|discriminate].
  apply match_at_chr_cat in E. destruct E as (s1 & pre & E1 & E2).
  injection E1 as -> ->. intros H.
  assert (Hn : n = (length (c :: s1) - length rest)%nat) by congruence.
  split; [reflexivity|].
  rewrite Hn, E2. cbn [length]. rewrite length_app. lia.
Qed.

(** ** Stripping escape sequences *)

Lemma ansi_needs_esc (c : N) (s : text) :
  c <> ESC -> match_len ansi_re (c :: s) = None.
Proof.
  intros Hc. destruct (match_len ansi_re (c :: s)) as [n|] eqn:E;
    [|reflexivity].
  unfold ansi_re in E. apply match_len_chr_cat in E.
  destruct E as [E _]. contradiction.
Qed.

(** Text without an ESC is left as it is. *)
Lemma strip_ansi_without_esc (t : text) :
  ~ In ESC t -> strip_ansi t = t.
Proof.
  unfold strip_ansi. induction t as [|c t IH]; intros Hn.
  - reflexivity.
  - rewrite sub_empty_cons, ansi_needs_esc.
    + rewrite IH; [reflexivity|]. intros Hin. apply Hn. right. exact Hin.
    + intros ->. apply Hn. left. reflexivity.
Qed.

Lemma escapes_well_formed_suffix (pre s : text) :
  escapes_well_formed (pre ++ s) -> escapes_well_formed s.
Proof.
  intros H pre' t ->. apply (H (pre ++ pre') t). rewrite app_assoc.
  reflexivity.
Qed.

(** When every ESC begins a sequence, one pass removes every ESC. *)
Lemma strip_ansi_removes_every_esc (s : text) :
  escapes_well_formed s -> ~ In ESC (strip_ansi s).
Proof.
  unfold strip_ansi.
  remember (length s) as n eqn:Hn. revert s Hn.
  induction n as [n IH] using lt_wf_ind. intros [|c s] Hn Hwf.
  - simp sub_empty. intros [].
  - rewrite sub_empty_cons.
    destruct (match_len ansi_re (c :: s)) as [[|k]|] eqn:E.
    + unfold ansi_re in E. apply match_len_chr_cat in E. lia.
    + apply (IH (length (skipn k s))).
      * subst n. simpl. rewrite length_skipn. lia.
      * reflexivity.
      * apply (escapes_well_formed_suffix (c :: firstn k s)).
        simpl. rewrite firstn_skipn. exact Hwf.
    + assert (Hc : c <> ESC).
      { intros ->. apply (Hwf [] s eq_refl).
        unfold match_len in E.
        destruct (match_at ansi_re (ESC :: s)) as [[rest g]|];
          [discriminate | reflexivity]. }
      intros [Hin|Hin]; [congruence|].
      revert Hin. apply (IH (length s)); [subst n; simpl; lia | reflexivity|].
      apply (escapes_well_formed_suffix [c]). exact Hwf.
Qed.

Lemma escapes_well_formedb_sound (s : text) :
  escapes_well_formedb s = true -> escapes_well_formed s.
Proof.
  induction s as [|c s IH]; intros H pre t E.
  - destruct pre; discriminate.
  - cbn [escapes_well_formedb] in H. apply andb_true_iff in H.
    destruct H as [Hc Hs]. destruct pre as [|x pre].
    + cbn [app] in E. rewrite <- E. injection E as -> _.
      rewrite N.eqb_refl in Hc.
      destruct (match_at ansi_re (ESC :: s)); [discriminate|discriminate].
    + injection E as _ E. apply (IH Hs pre t E).
Qed.

(** C1, as amended: stripping is idempotent on every text in which each ESC
    character begins a sequence that the pattern matches, as in the output
    of a program that only emits complete colour and cursor sequences. *)
Theorem strip_ansi_idempotent_on_well_formed (s : text) :
  escapes_well_formed s -> strip_ansi (strip_ansi s) = strip_ansi s.
Proof.
  intros Hwf. apply strip_ansi_without_esc.
  apply strip_ansi_removes_every_esc. exact Hwf.
Qed.

(** ** Counting the warning phrase *)

Lemma starts_with_split (p s : text) :
  starts_with p s = true <-> s = p ++ skipn (length p) s.
Proof.
  revert s. induction p as [|a p IH]; intros s; simpl.
  - tauto.
  - destruct s as [|b s]; [split; discriminate|].
    rewrite andb_true_iff, IH, N.eqb_eq. split.
    + intros [-> <-]. reflexivity.
    + intros [= -> H]. split; [reflexivity | exact H].
Qed.

Lemma starts_with_app (p rest : text) : starts_with p (p ++ rest) = true.
Proof.
  induction p as [|a p IH]; simpl; [reflexivity|].
  rewrite N.eqb_refl. exact IH.
Qed.

Lemma starts_with_length (p s : text) :
  starts_with p s = true -> (length p <= length s)%nat.
Proof.
  intros H. apply starts_with_split in H. rewrite H.
  rewrite length_app. lia.
Qed.

Lemma rmatch_lit {A} (p : text) :
  forall (s : text) (g : captures) (k : text -> captures -> option A),
    rmatch (lit p) s g k =
    if starts_with p s then k (skipn (length p) s) g else None.
Proof.
  induction p as [|a p IH]; intros s g k.
  - reflexivity.
  - cbn [lit rmatch]. destruct s as [|b s]; [reflexivity|].
    cbn [starts_with length skipn]. rewrite (N.eqb_sym a b).
    destruct (b =? a); [apply IH | reflexivity].
Qed.

Lemma match_len_lit (p s : text) :
  match_len (lit p) s = if starts_with p s then Some (length p) else None.
Proof.
  unfold match_len, match_at. rewrite rmatch_lit.
  destruct (starts_with p s) eqn:E; [|reflexivity].
  f_equal. rewrite length_skipn. apply starts_with_length in E. lia.
Qed.

Lemma occurrences_cons (p : text) (c : N) (s : text) :
  occurrences p (c :: s) =
  (if starts_with p (c :: s) then [0%nat] else [])
  ++ map S (occurrences p s).
Proof.
  unfold occurrences. cbn [length seq filter skipn].
  rewrite <- seq_shift, filter_map_swap.
  destruct (starts_with p (c :: s)); reflexivity.
Qed.

Lemma occurrences_spec (p s : text) (i : nat) :
  In i (occurrences p s) <->
  (i < length s)%nat /\ exists post, skipn i s = p ++ post.
Proof.
  unfold occurrences. rewrite filter_In, in_seq, starts_with_split.
  split.
  - intros [Hi H]. split; [lia|]. eexists. exact H.
  - intros [Hi [post H]]. split; [lia|]. rewrite H at 1.
    f_equal. rewrite H, skipn_app, skipn_all, Nat.sub_diag. reflexivity.
Qed.

(** The phrase begins with its only capital S, so two occurrences never
    overlap. *)
Lemma warning_phrase_no_overlap (s : text) (j : nat) :
  starts_with warning_phrase s = true ->
  (0 < j < length warning_phrase)%nat ->
  starts_with warning_phrase (skipn j s) = false.
Proof.
  intros H Hj. apply starts_with_split in H. rewrite H.
  generalize (skipn (length warning_phrase) s). intros rest.
  destruct j as [|j]; [lia|].
  do 32 (destruct j as [|j]; [vm_compute; reflexivity|]).
  vm_compute in Hj. lia.
Qed.

Lemma occurrences_skip (p : text) (k : nat) :
  forall s : text,
    (forall j, (j < k)%nat -> starts_with p (skipn j s) = false) ->
    length (occurrences p s) = length (occurrences p (skipn k s)).
Proof.
  induction k as [|k IH]; intros s H; [reflexivity|].
  destruct s as [|c s]; [reflexivity|].
  rewrite occurrences_cons.
  change (c :: s) with (skipn 0 (c :: s)) at 1. rewrite (H 0%nat) by lia.
  cbn [app skipn]. rewrite length_map. apply IH.
  intros j Hj. apply (H (S j)). lia.
Qed.

Lemma findall_counts_occurrences (s : text) :
  length (findall delayed_re s) = length (occurrences warning_phrase s).
Proof.
  remember (length s) as n eqn:Hn. revert s Hn.
  induction n as [n IH] using lt_wf_ind. intros [|c s] Hn.
  - reflexivity.
  - rewrite findall_cons. unfold delayed_re. rewrite match_len_lit.
    rewrite occurrences_cons.
    destruct (starts_with warning_phrase (c :: s)) eqn:E.
    + change (length warning_phrase) with 33%nat. cbn [length app].
      rewrite length_map. f_equal.
      rewrite (occurrences_skip warning_phrase 32 s).
      * apply (IH (length (skipn 32 s))); [|reflexivity].
        subst n. cbn [length]. rewrite length_skipn. lia.
      * intros j Hj.
        apply (warning_phrase_no_overlap (c :: s) (S j) E).
        change (length warning_phrase) with 33%nat. lia.
    + cbn [app]. rewrite length_map.
      apply (IH (length s)); [subst n; simpl; lia | reflexivity].
Qed.

Lemma occurrences_apart (s : text) (a b : nat) :
  In a (occurrences warning_phrase s) ->
  In b (occurrences warning_phrase s) ->
  (a < b)%nat -> (a + length warning_phrase <= b)%nat.
Proof.
  intros Ha Hb Hab. apply occurrences_spec in Ha, Hb.
  destruct Ha as [_ [posta Ha]]. destruct Hb as [_ [postb Hb]].
  destruct (Nat.le_gt_cases (a + length warning_phrase) b) as [|Hlt];
    [assumption|exfalso].
  assert (E : starts_with warning_phrase (skipn (b - a) (skipn a s)) = false).
  { apply warning_phrase_no_overlap; [|lia].
    rewrite Ha. apply starts_with_app. }
  rewrite skipn_skipn in E. replace (b - a + a)%nat with b in E by lia.
  rewrite Hb, starts_with_app in E. discriminate.
Qed.

(** ** Floating point

    Rounding is followed through the Standard Library's specification: a
    right shift that keeps [53] bits, a rounding to one of the two
    neighbours, and a second shift when the mantissa overflowed. *)

Local Open Scope Z_scope.

Lemma digits2_pos_bounds (p : positive) :
  2 ^ (Zpos (digits2_pos p) - 1) <= Zpos p < 2 ^ Zpos (digits2_pos p).
Proof.
  induction p as [p IH|p IH|]; cbn [digits2_pos].
  - rewrite Pos2Z.inj_succ.
    replace (Z.succ (Zpos (digits2_pos p)) - 1) with (Z.succ (Zpos (digits2_pos p) - 1)) by lia.
    rewrite !Z.pow_succ_r by lia. lia.
  - rewrite Pos2Z.inj_succ.
    replace (Z.succ (Zpos (digits2_pos p)) - 1) with (Z.succ (Zpos (digits2_pos p) - 1)) by lia.
    rewrite !Z.pow_succ_r by lia. lia.
  - cbn. lia.
Qed.

Lemma Zdigits2_nonneg (m : Z) : 0 <= Zdigits2 m.
Proof. destruct m; cbn; lia. Qed.

Lemma Zdigits2_le (m k : Z) : 0 <= k -> 0 <= m < 2 ^ k -> Zdigits2 m <= k.
Proof.
  intros Hk [H0 Hm]. destruct m as [|p|p]; cbn [Zdigits2]; [lia| |lia].
  destruct (digits2_pos_bounds p) as [Hlo _].
  destruct (Z.le_gt_cases (Zpos (digits2_pos p)) k) as [|Hgt]; [assumption|].
  exfalso. assert (2 ^ k <= 2 ^ (Zpos (digits2_pos p) - 1)).
  { apply Z.pow_le_mono_r; lia. }
  lia.
Qed.

Lemma Zdigits2_lower (m : Z) : 0 < m -> 2 ^ (Zdigits2 m - 1) <= m < 2 ^ Zdigits2 m.
Proof. destruct m as [|p|p]; try lia. intros _. apply digits2_pos_bounds. Qed.

Lemma shr_1_m (r : shr_record) : 0 <= shr_m r -> shr_m (shr_1 r) = shr_m r / 2.
Proof.
  destruct r as [m rb sb]. cbn [shr_m shr_1]. intros H.
  destruct m as [|[p|p|]|p]; cbn [shr_m].
  - reflexivity.
  - rewrite Pos2Z.inj_xI. apply Z.div_unique with (r := 1); lia.
  - rewrite Pos2Z.inj_xO. apply Z.div_unique with (r := 0); lia.
  - reflexivity.
  - lia.
Qed.

Lemma div_pow2_pow2 (m a b : Z) :
  0 <= a -> 0 <= b -> m / 2 ^ a / 2 ^ b = m / 2 ^ (a + b).
Proof.
  intros Ha Hb. rewrite Z.pow_add_r by assumption.
  assert (0 < 2 ^ a) by (apply Z.pow_pos_nonneg; lia).
  assert (0 < 2 ^ b) by (apply Z.pow_pos_nonneg; lia).
  apply Z.div_div; lia.
Qed.

Lemma div_pow2_nonneg (m a : Z) : 0 <= m -> 0 <= m / 2 ^ a.
Proof.
  intros Hm. destruct (Z.le_gt_cases 0 a).
  - apply Z.div_pos; [assumption | apply Z.pow_pos_nonneg; lia].
  - rewrite Z.pow_neg_r by lia. rewrite Z.div_0_r. lia.
Qed.

Lemma shr_iter_m (p : positive) : forall r : shr_record,
  0 <= shr_m r -> shr_m (SpecFloat.iter_pos shr_1 p r) = shr_m r / 2 ^ Zpos p.
Proof.
  induction p as [p IH|p IH|]; intros r Hr; cbn [SpecFloat.iter_pos].
  - assert (H1 : 0 <= shr_m (shr_1 r)).
    { rewrite shr_1_m by lia. apply (div_pow2_nonneg _ 1). lia. }
    assert (H2 : 0 <= shr_m (SpecFloat.iter_pos shr_1 p (shr_1 r))).
    { rewrite IH by lia. apply div_pow2_nonneg. lia. }
    rewrite IH, IH, shr_1_m by lia.
    change (shr_m r / 2) with (shr_m r / 2 ^ 1).
    rewrite !div_pow2_pow2 by lia. f_equal. f_equal. lia.
  - assert (H2 : 0 <= shr_m (SpecFloat.iter_pos shr_1 p r)).
    { rewrite IH by lia. apply div_pow2_nonneg. lia. }
    rewrite IH, IH by lia.
    rewrite div_pow2_pow2 by lia. f_equal. f_equal. lia.
  - rewrite shr_1_m by lia. reflexivity.
Qed.

Lemma shr_spec (r : shr_record) (e n : Z) :
  0 <= shr_m r ->
  shr_m (fst (shr r e n)) = shr_m r / 2 ^ Z.max 0 n
  /\ snd (shr r e n) = e + Z.max 0 n.
Proof.
  intros Hr. destruct n as [|p|p]; cbn [shr fst snd].
  - rewrite Z.max_id. cbn. rewrite Z.div_1_r. lia.
  - rewrite Z.max_r by lia. rewrite shr_iter_m by lia. lia.
  - rewrite Z.max_l by lia. cbn. rewrite Z.div_1_r. lia.
Qed.

Lemma Zdigits2_ge (m k : Z) : 2 ^ (k - 1) <= m -> 0 < m -> k <= Zdigits2 m.
Proof.
  intros Hk Hm. destruct (Zdigits2_lower m Hm) as [_ Hup].
  destruct (Z.le_gt_cases k (Zdigits2 m)) as [|Hgt]; [assumption|exfalso].
  assert (2 ^ Zdigits2 m <= 2 ^ (k - 1)).
  { apply Z.pow_le_mono_r; [lia|]. lia. }
  lia.
Qed.

Lemma shr_record_of_loc_m (m : Z) (l : location) :
  shr_m (shr_record_of_loc m l) = m.
Proof. destruct l as [|[]]; reflexivity. Qed.

Lemma shr_fexp_spec (m e : Z) (l : location) :
  0 <= m ->
  let p := Z.max 0 (fexp 53 1024 (Zdigits2 m + e) - e) in
  shr_m (fst (shr_fexp 53 1024 m e l)) = m / 2 ^ p
  /\ snd (shr_fexp 53 1024 m e l) = e + p.
Proof.
  intros Hm p. unfold shr_fexp.
  destruct (shr_spec (shr_record_of_loc m l) e
              (fexp 53 1024 (Zdigits2 m + e) - e)) as [H1 H2].
  - rewrite shr_record_of_loc_m. exact Hm.
  - rewrite shr_record_of_loc_m in H1. split; assumption.
Qed.

Lemma round_nearest_even_cases (m : Z) (l : location) :
  round_nearest_even m l = m \/ round_nearest_even m l = m + 1.
Proof.
  destruct l as [|[]]; cbn [round_nearest_even]; auto.
  destruct (Z.even m); auto.
Qed.

(** The shape of every rounding: shift, round up or not, shift again. *)
Lemma binary_round_aux_spec (sx : bool) (mx ex : Z) (lx : location) :
  0 <= mx ->
  let p1 := Z.max 0 (fexp 53 1024 (Zdigits2 mx + ex) - ex) in
  let m1 := mx / 2 ^ p1 in
  let e1 := ex + p1 in
  exists m2,
    (m2 = m1 \/ m2 = m1 + 1) /\
    let p2 := Z.max 0 (fexp 53 1024 (Zdigits2 m2 + e1) - e1) in
    binary_round_aux 53 1024 sx mx ex lx =
    match m2 / 2 ^ p2 with
    | Z0 => S754_zero sx
    | Zpos m =>
        if e1 + p2 <=? 971 then S754_finite sx m (e1 + p2)
        else S754_infinity sx
    | Zneg _ => S754_nan
    end.
Proof.
  intros Hmx p1 m1 e1. unfold binary_round_aux.
  destruct (shr_fexp_spec mx ex lx Hmx) as [Hm He].
  destruct (shr_fexp 53 1024 mx ex lx) as [mrs' e'].
  cbn [fst snd] in Hm, He. fold p1 in Hm, He. fold m1 in Hm. fold e1 in He.
  set (m2 := round_nearest_even (shr_m mrs') (loc_of_shr_record mrs')).
  assert (Hm1 : 0 <= m1) by (apply div_pow2_nonneg; exact Hmx).
  assert (Hc : m2 = m1 \/ m2 = m1 + 1).
  { unfold m2. rewrite <- Hm. apply round_nearest_even_cases. }
  exists m2. split; [exact Hc|].
  assert (Hm2 : 0 <= m2) by lia.
  destruct (shr_fexp_spec m2 e' loc_Exact Hm2) as [Hm' He'].
  destruct (shr_fexp 53 1024 m2 e' loc_Exact) as [mrs'' e''].
  cbn [fst snd] in Hm', He'. subst e'. cbv zeta. rewrite Hm', He'.
  reflexivity.
Qed.

Lemma fexp_eq (e : Z) : fexp 53 1024 e = Z.max (e - 53) (-1074).
Proof. reflexivity. Qed.

(** A value below 2 never rounds to an infinity. *)
Lemma binary_round_aux_finite (sx : bool) (mx ex : Z) (lx : location) :
  0 <= mx < 2 ^ (1 - ex) -> ex <= 0 ->
  forall s, binary_round_aux 53 1024 sx mx ex lx <> S754_infinity s.
Proof.
  intros [Hmx Hlt] Hex s.
  destruct (binary_round_aux_spec sx mx ex lx Hmx) as (m2 & Hc & ->).
  cbv zeta.
  set (p1 := Z.max 0 (fexp 53 1024 (Zdigits2 mx + ex) - ex)) in *.
  set (e1 := ex + p1) in *.
  assert (Hd : Zdigits2 mx <= 1 - ex) by (apply Zdigits2_le; lia).
  assert (He1 : e1 <= 0).
  { unfold e1, p1. rewrite fexp_eq. lia. }
  assert (Hp1 : 0 <= p1) by (unfold p1; lia).
  assert (Hm1 : 0 <= mx / 2 ^ p1 < 2 ^ (1 - e1)).
  { split; [apply div_pow2_nonneg; exact Hmx|].
    apply Z.div_lt_upper_bound; [apply Z.pow_pos_nonneg; lia|].
    rewrite <- Z.pow_add_r by lia. replace (p1 + (1 - e1)) with (1 - ex) by (unfold e1; lia).
    exact Hlt. }
  assert (Hm2 : 0 <= m2 < 2 ^ (2 - e1)).
  { replace (2 - e1) with (Z.succ (1 - e1)) by lia.
    rewrite Z.pow_succ_r by lia. lia. }
  assert (Hd2 : Zdigits2 m2 <= 2 - e1) by (apply Zdigits2_le; lia).
  set (p2 := Z.max 0 (fexp 53 1024 (Zdigits2 m2 + e1) - e1)).
  assert (He2 : e1 + p2 <= 971).
  { unfold p2. rewrite fexp_eq. lia. }
  destruct (m2 / 2 ^ p2); try discriminate.
  destruct (Z.leb_spec (e1 + p2) 971); [discriminate | lia].
Qed.

Lemma SFdiv_int (pc pn : positive) :
  let e' := Z.min (fexp 53 1024 (Zdigits2 (Zpos pc) - Zdigits2 (Zpos pn))) 0 in
  let q := Zpos pc * 2 ^ (- e') / Zpos pn in
  exists l,
    SFdiv 53 1024 (S754_finite false pc 0) (S754_finite false pn 0) =
    binary_round_aux 53 1024 false q e' l.
Proof.
  intros e' q. unfold SFdiv, SFdiv_core_binary.
  rewrite !Z.add_0_r, Z.sub_diag, Z.sub_0_l. fold e'.
  assert (He : e' <= 0) by (unfold e'; lia).
  assert (Hm : match - e' with
               | Z0 => Zpos pc
               | Zpos _ => Z.shiftl (Zpos pc) (- e')
               | Zneg _ => 0
               end = Zpos pc * 2 ^ (- e')).
  { destruct (- e') as [|p|p] eqn:E; [rewrite Z.mul_1_r; reflexivity| |lia].
    rewrite Z.shiftl_mul_pow2 by lia. reflexivity. }
  rewrite Hm. cbn [xorb].
  unfold q, Z.div.
  destruct (Z.div_eucl (Zpos pc * 2 ^ (- e')) (Zpos pn)) as [q0 r0].
  eexists. reflexivity.
Qed.

(** Integer division of a smaller by a larger positive integer is defined. *)
Lemma int_truediv_ok (c n : Z) :
  1 <= c <= n -> exists q, int_truediv c n = Ok q.
Proof.
  intros H. destruct c as [|pc|pc]; try lia. destruct n as [|pn|pn]; try lia.
  unfold int_truediv. cbn [int_as_float].
  destruct (SFdiv_int pc pn) as [l ->].
  set (e' := Z.min (fexp 53 1024 (Zdigits2 (Zpos pc) - Zdigits2 (Zpos pn))) 0).
  set (q := Zpos pc * 2 ^ (- e') / Zpos pn).
  assert (He : e' <= 0) by (unfold e'; lia).
  assert (Hp : 0 < 2 ^ (- e')) by (apply Z.pow_pos_nonneg; lia).
  assert (Hq : 0 <= q < 2 ^ (1 - e')).
  { unfold q. split; [apply Z.div_pos; lia|].
    apply Z.div_lt_upper_bound; [lia|].
    replace (1 - e') with (Z.succ (- e')) by lia.
    rewrite Z.pow_succ_r by lia. nia. }
  pose proof (binary_round_aux_finite false q e' l Hq He) as Hfin.
  destruct (binary_round_aux 53 1024 false q e' l) as [s|s| |s m e];
    try (eexists; reflexivity).
  exfalso. apply (Hfin s). reflexivity.
Qed.

Lemma pow2_pos (e : Z) : (0 < powerRZ 2 e)%R.
Proof. apply powerRZ_lt. lra. Qed.

Lemma pow2_add (a b : Z) :
  powerRZ 2 (a + b) = (powerRZ 2 a * powerRZ 2 b)%R.
Proof. apply powerRZ_add. lra. Qed.

Lemma pow2_IZR (k : Z) : 0 <= k -> powerRZ 2 k = IZR (2 ^ k).
Proof.
  intros Hk. rewrite <- (Z2Nat.id k Hk) at 1 2.
  rewrite <- pow_powerRZ, <- (pow_IZR 2). reflexivity.
Qed.

Lemma F2R_shift (m e p : Z) : 0 <= p -> F2R (m * 2 ^ p) e = F2R m (e + p).
Proof.
  intros Hp. unfold F2R. rewrite mult_IZR, <- pow2_IZR by exact Hp.
  rewrite (Z.add_comm e p), pow2_add. ring.
Qed.

Lemma F2R_le (a b e : Z) : a <= b -> (F2R a e <= F2R b e)%R.
Proof.
  intros H. unfold F2R. apply Rmult_le_compat_r.
  - apply Rlt_le, pow2_pos.
  - apply IZR_le, H.
Qed.

(** Rounding in the normal range: the result has 53 significant bits and is
    one of the two neighbours of the value on the grid of step [2^e1]. *)
Lemma binary_round_aux_normal (sx : bool) (mx ex : Z) (lx : location) :
  2 ^ 52 <= mx ->
  -1021 <= Zdigits2 mx + ex <= 1023 ->
  let p := Zdigits2 mx - 53 in
  let e1 := ex + p in
  exists (m : positive) (e : Z),
    binary_round_aux 53 1024 sx mx ex lx = S754_finite sx m e
    /\ e1 <= e <= e1 + 1
    /\ 2 ^ 52 <= Zpos m < 2 ^ 53
    /\ (Zpos m * 2 ^ (e - e1) = mx / 2 ^ p
        \/ Zpos m * 2 ^ (e - e1) = mx / 2 ^ p + 1).
Proof.
  intros Hmx Hrange p e1.
  assert (Hpos : 0 < mx) by lia.
  destruct (Zdigits2_lower mx Hpos) as [Hlo Hup].
  assert (Hd : 53 <= Zdigits2 mx) by (apply Zdigits2_ge; [exact Hmx | lia]).
  destruct (binary_round_aux_spec sx mx ex lx) as (m2 & Hc & ->); [lia|].
  cbv zeta.
  assert (Ep1 : Z.max 0 (fexp 53 1024 (Zdigits2 mx + ex) - ex) = p).
  { rewrite fexp_eq. unfold p. lia. }
  rewrite Ep1. rewrite Ep1 in Hc. fold e1.
  set (m1 := mx / 2 ^ p) in *.
  assert (Hp : 0 <= p) by (unfold p; lia).
  assert (Hm1 : 2 ^ 52 <= m1 < 2 ^ 53).
  { unfold m1. split.
    - apply Z.div_le_lower_bound; [apply Z.pow_pos_nonneg; lia|].
      rewrite <- Z.pow_add_r by lia.
      replace (p + 52) with (Zdigits2 mx - 1) by (unfold p; lia). exact Hlo.
    - apply Z.div_lt_upper_bound; [apply Z.pow_pos_nonneg; lia|].
      rewrite <- Z.pow_add_r by lia.
      replace (p + 53) with (Zdigits2 mx) by (unfold p; lia). exact Hup. }
  assert (He1 : -1074 <= e1 <= 970) by (unfold e1, p; lia).
  destruct (Z.eq_dec m2 (2 ^ 53)) as [E|E].
  - (* the mantissa was rounded up to a power of two *)
    assert (Hd2 : Zdigits2 m2 = 54).
    { apply Z.le_antisymm.
      - apply Zdigits2_le; [lia|]. rewrite E. split; [lia|].
        apply Z.pow_lt_mono_r; lia.
      - apply Zdigits2_ge; rewrite E; [|lia]. apply Z.pow_le_mono_r; lia. }
    rewrite Hd2, fexp_eq.
    replace (Z.max 0 (Z.max (54 + e1 - 53) (-1074) - e1)) with 1 by lia.
    rewrite E. change (2 ^ 53 / 2 ^ 1) with (Zpos 4503599627370496).
    destruct (Z.leb_spec (e1 + 1) 971); [|lia].
    exists 4503599627370496%positive, (e1 + 1).
    split; [reflexivity|]. split; [lia|]. split; [split; [|]; reflexivity || lia|].
    right. replace (e1 + 1 - e1) with 1 by lia.
    change (Zpos 4503599627370496 * 2 ^ 1) with (2 ^ 53). lia.
  - assert (Hm2 : 2 ^ 52 <= m2 < 2 ^ 53) by lia.
    assert (Hd2 : Zdigits2 m2 = 53).
    { apply Z.le_antisymm.
      - apply Zdigits2_le; lia.
      - apply Zdigits2_ge; lia. }
    rewrite Hd2, fexp_eq.
    replace (Z.max 0 (Z.max (53 + e1 - 53) (-1074) - e1)) with 0 by lia.
    rewrite Z.pow_0_r, Z.div_1_r, Z.add_0_r.
    destruct m2 as [|m|m]; try lia.
    destruct (Z.leb_spec e1 971); [|lia].
    exists m, e1. split; [reflexivity|]. split; [lia|]. split; [exact Hm2|].
    rewrite Z.sub_diag, Z.pow_0_r, Z.mul_1_r. exact Hc.
Qed.

(** In the normal range a rounding is off by at most one unit in the last
    place, hence by at most [2^-52] of the value. *)
Lemma binary_round_aux_close (sx : bool) (mx ex : Z) (lx : location) (x : R) :
  2 ^ 52 <= mx ->
  -1021 <= Zdigits2 mx + ex <= 1023 ->
  (F2R mx ex <= x <= F2R (mx + 1) ex)%R ->
  exists (m : positive) (e : Z),
    binary_round_aux 53 1024 sx mx ex lx = S754_finite sx m e
    /\ ex + Zdigits2 mx - 53 <= e <= ex + Zdigits2 mx - 52
    /\ 2 ^ 52 <= Zpos m < 2 ^ 53
    /\ (- (x / 4503599627370496) <= F2R (Zpos m) e - x
        <= x / 4503599627370496)%R.
Proof.
  intros Hmx Hrange Hx.
  destruct (binary_round_aux_normal sx mx ex lx Hmx Hrange)
    as (m & e & Heq & He & Hm & HM).
  cbv zeta in He, HM.
  set (p := Zdigits2 mx - 53) in *. set (e1 := ex + p) in *.
  exists m, e. split; [exact Heq|]. split; [unfold e1, p in He; lia|].
  split; [exact Hm|].
  assert (Hpos : 0 < mx) by lia.
  assert (Hd : 53 <= Zdigits2 mx) by (apply Zdigits2_ge; [exact Hmx | lia]).
  assert (Hp : 0 <= p) by (unfold p; lia).
  assert (Hpp : 0 < 2 ^ p) by (apply Z.pow_pos_nonneg; lia).
  set (m1 := mx / 2 ^ p) in *.
  assert (Hdiv : m1 * 2 ^ p <= mx < (m1 + 1) * 2 ^ p).
  { unfold m1. pose proof (Z.mul_div_le mx (2 ^ p) Hpp).
    pose proof (Z.mul_succ_div_gt mx (2 ^ p) Hpp). lia. }
  assert (Hm1 : 2 ^ 52 <= m1).
  { unfold m1. apply Z.div_le_lower_bound; [lia|].
    rewrite <- Z.pow_add_r by lia.
    replace (p + 52) with (Zdigits2 mx - 1) by (unfold p; lia).
    apply Zdigits2_lower. lia. }
  assert (Hval : F2R (Zpos m) e = F2R (Zpos m * 2 ^ (e - e1)) e1).
  { rewrite F2R_shift by lia. f_equal. lia. }
  assert (Hlo : (F2R m1 e1 <= x)%R).
  { unfold e1. rewrite <- F2R_shift by lia.
    eapply Rle_trans; [apply F2R_le|apply Hx]. lia. }
  assert (Hhi : (x <= F2R (m1 + 1) e1)%R).
  { unfold e1. rewrite <- F2R_shift by lia.
    eapply Rle_trans; [apply Hx|apply F2R_le]. lia. }
  assert (Hulp : (powerRZ 2 e1 <= x / 4503599627370496)%R).
  { assert (H52 : (IZR (2 ^ 52) * powerRZ 2 e1 <= x)%R).
    { eapply Rle_trans; [|exact Hlo]. apply (F2R_le _ _ e1 Hm1). }
    change (2 ^ 52) with 4503599627370496 in H52. lra. }
  rewrite Hval. unfold F2R in *. rewrite plus_IZR in Hhi.
  pose proof (pow2_pos e1).
  destruct HM as [-> | ->]; [|rewrite plus_IZR]; lra.
Qed.

Lemma div_half_even_close (a b : Z) :
  0 < b -> 2 * Z.abs (div_half_even a b * b - a) <= b.
Proof.
  intros Hb. unfold div_half_even.
  pose proof (Z.div_mod a b ltac:(lia)) as Hdiv.
  pose proof (Z.mod_pos_bound a b Hb) as Hmod.
  destruct (Z.compare_spec (2 * (a mod b)) b) as [E|E|E];
    [destruct (Z.even (a / b))| |]; nia.
Qed.

Lemma int_truediv_close (c n : Z) :
  1 <= c <= n -> n < 2 ^ 36 ->
  exists (m : positive) (e : Z),
    int_truediv c n = Ok (S754_finite false m e)
    /\ -88 <= e <= -51
    /\ 2 ^ 52 <= Zpos m < 2 ^ 53
    /\ (- (IZR c / IZR n / 4503599627370496)
        <= F2R (Zpos m) e - IZR c / IZR n
        <= IZR c / IZR n / 4503599627370496)%R.
Proof.
  intros Hc Hn. destruct c as [|pc|pc]; try lia. destruct n as [|pn|pn]; try lia.
  unfold int_truediv. cbn [int_as_float].
  destruct (SFdiv_int pc pn) as [l ->].
  set (d1 := Zdigits2 (Zpos pc)). set (d2 := Zdigits2 (Zpos pn)).
  destruct (Zdigits2_lower (Zpos pc) ltac:(lia)) as [Hc1 Hc2].
  destruct (Zdigits2_lower (Zpos pn) ltac:(lia)) as [Hn1 Hn2].
  fold d1 in Hc1, Hc2. fold d2 in Hn1, Hn2.
  assert (Hd1 : 1 <= d1) by (apply Zdigits2_ge; [cbn|]; lia).
  assert (Hd2 : d2 <= 36) by (apply Zdigits2_le; lia).
  assert (Hd12 : d1 <= d2).
  { apply Zdigits2_le; [apply Zdigits2_nonneg | lia]. }
  assert (Ee : Z.min (fexp 53 1024 (d1 - d2)) 0 = d1 - d2 - 53).
  { rewrite fexp_eq. lia. }
  rewrite Ee. set (e' := d1 - d2 - 53).
  set (s := - e'). set (q := Zpos pc * 2 ^ s / Zpos pn).
  assert (Hs : 0 <= s) by (unfold s, e'; lia).
  assert (Hps : 0 < 2 ^ s) by (apply Z.pow_pos_nonneg; lia).
  assert (Hq1 : 2 ^ 52 <= q).
  { unfold q. apply Z.div_le_lower_bound; [lia|].
    assert (2 ^ 52 * 2 ^ d2 <= 2 ^ (d1 - 1) * 2 ^ s).
    { rewrite <- !Z.pow_add_r by lia.
      apply Z.pow_le_mono_r; unfold s, e'; lia. }
    nia. }
  assert (Hq2 : q < 2 ^ 54).
  { unfold q. apply Z.div_lt_upper_bound; [lia|].
    assert (2 ^ d1 * 2 ^ s <= 2 ^ (d2 - 1) * 2 ^ 54).
    { rewrite <- !Z.pow_add_r by lia.
      apply Z.pow_le_mono_r; unfold s, e'; lia. }
    nia. }
  assert (Hdq : 53 <= Zdigits2 q <= 54).
  { split; [apply Zdigits2_ge | apply Zdigits2_le]; lia. }
  assert (Hqn : q * Zpos pn <= Zpos pc * 2 ^ s < (q + 1) * Zpos pn).
  { unfold q. pose proof (Z.mul_div_le (Zpos pc * 2 ^ s) (Zpos pn) ltac:(lia)).
    pose proof (Z.mul_succ_div_gt (Zpos pc * 2 ^ s) (Zpos pn) ltac:(lia)).
    lia. }
  assert (Hx : (F2R q e' <= IZR (Zpos pc) / IZR (Zpos pn)
                <= F2R (q + 1) e')%R).
  { unfold F2R.
    assert (HN : (0 < IZR (Zpos pn))%R) by (apply IZR_lt; lia).
    assert (HB : (powerRZ 2 e' * IZR (2 ^ s) = 1)%R).
    { rewrite <- pow2_IZR, <- pow2_add by lia.
      replace (e' + s) with 0 by (unfold s; lia). reflexivity. }
    pose proof (pow2_pos e') as HBp.
    destruct Hqn as [Hq Hq'].
    apply IZR_le in Hq. apply IZR_lt in Hq'.
    rewrite !mult_IZR in Hq, Hq'. rewrite plus_IZR in *.
    set (X := (IZR (Zpos pc) / IZR (Zpos pn))%R).
    assert (HX : (X * IZR (Zpos pn) = IZR (Zpos pc))%R).
    { unfold X. field. lra. }
    rewrite <- HX in Hq, Hq'.
    assert (H1 : (IZR q <= X * IZR (2 ^ s))%R) by nra.
    assert (H2 : (X * IZR (2 ^ s) <= IZR q + 1)%R) by nra.
    split.
    - replace X with (X * IZR (2 ^ s) * powerRZ 2 e')%R
        by (rewrite Rmult_assoc, (Rmult_comm (IZR _)), HB; ring).
      apply Rmult_le_compat_r; lra.
    - replace X with (X * IZR (2 ^ s) * powerRZ 2 e')%R at 1
        by (rewrite Rmult_assoc, (Rmult_comm (IZR _)), HB; ring).
      apply Rmult_le_compat_r; lra. }
  destruct (binary_round_aux_close false q e' l
              (IZR (Zpos pc) / IZR (Zpos pn)) Hq1 ltac:(unfold e'; lia) Hx)
    as (m & e & -> & He & Hm & Hclose).
  exists m, e. split; [reflexivity|]. split; [unfold e' in He; lia|].
  split; assumption.
Qed.

Lemma float_mul_100_close (m : positive) (e : Z) :
  2 ^ 52 <= Zpos m < 2 ^ 53 -> -88 <= e <= -51 ->
  exists (m' : positive) (e' : Z),
    float_mul_int (S754_finite false m e) 100 = S754_finite false m' e'
    /\ e + 6 <= e' <= e + 8
    /\ (- (100 * F2R (Zpos m) e / 4503599627370496)
        <= F2R (Zpos m') e' - 100 * F2R (Zpos m) e
        <= 100 * F2R (Zpos m) e / 4503599627370496)%R.
Proof.
  intros Hm He. unfold float_mul_int.
  change (binary_normalize 53 1024 100 0 false)
    with (S754_finite false 7036874417766400 (-46)).
  cbn [SFmul xorb].
  set (mx := Zpos (m * 7036874417766400)).
  assert (Emx : mx = Zpos m * (100 * 2 ^ 46)) by reflexivity.
  assert (Hmx1 : 2 ^ 104 <= mx).
  { rewrite Emx. change (2 ^ 104) with (2 ^ 52 * (64 * 2 ^ 46)). nia. }
  assert (Hmx2 : mx < 2 ^ 106).
  { rewrite Emx. change (2 ^ 106) with (2 ^ 53 * (128 * 2 ^ 46)). nia. }
  assert (Hd : 105 <= Zdigits2 mx <= 106).
  { split; [apply Zdigits2_ge | apply Zdigits2_le]; lia. }
  assert (Hx : (F2R mx (e + -46) <= 100 * F2R (Zpos m) e
                <= F2R (mx + 1) (e + -46))%R).
  { assert (E : F2R mx (e + -46) = (100 * F2R (Zpos m) e)%R).
    { unfold F2R. rewrite Emx, !mult_IZR, <- pow2_IZR, pow2_add by lia.
      rewrite (Rmult_comm (powerRZ 2 e)).
      replace (IZR (Zpos m) * (100 * powerRZ 2 46)
               * (powerRZ 2 (-46) * powerRZ 2 e))%R
        with (100 * (IZR (Zpos m) * powerRZ 2 e)
              * (powerRZ 2 46 * powerRZ 2 (-46)))%R by ring.
      rewrite <- pow2_add. change (46 + -46) with 0. cbn [powerRZ]. ring. }
    rewrite <- E. split; [lra|]. apply F2R_le. lia. }
  destruct (binary_round_aux_close false mx (e + -46) loc_Exact
              (100 * F2R (Zpos m) e) ltac:(lia) ltac:(lia) Hx)
    as (m' & e' & -> & He' & _ & Hclose).
  exists m', e'. split; [reflexivity|]. split; [lia|]. exact Hclose.
Qed.

(** The printed rate is within half a hundredth of [100 * c / n]. *)
Lemma win_rate_close (c n : Z) :
  1 <= c <= n -> n < 2 ^ 36 ->
  exists h : Z,
    win_rate c n = Ok (two_decimals h)
    /\ 0 <= h
    /\ 2 * Z.abs (h * n - 10000 * c) <= n.
Proof.
  intros Hc Hn. unfold win_rate.
  destruct (int_truediv_close c n Hc Hn) as (m & e & -> & He & Hm & Hq).
  destruct (float_mul_100_close m e Hm He) as (m' & e' & -> & He' & Hp).
  cbn [format_2f]. unfold hundredths.
  destruct (Z.leb_spec 0 e'); [lia|].
  set (b := 2 ^ (- e')).
  set (h := div_half_even (Zpos m' * 100) b).
  assert (Hb : 0 < b) by (apply Z.pow_pos_nonneg; lia).
  exists h. split; [reflexivity|].
  pose proof (div_half_even_close (Zpos m' * 100) b Hb) as Hh. fold h in Hh.
  assert (Hh0 : 0 <= h).
  { unfold h, div_half_even.
    assert (0 <= Zpos m' * 100 / b) by (apply Z.div_pos; lia).
    destruct (2 * ((Zpos m' * 100) mod b) ?= b);
      [destruct (Z.even _)| |]; lia. }
  split; [exact Hh0|].
  (* from here on, real arithmetic *)
  set (X := (IZR c / IZR n)%R) in *.
  assert (HN : (1 <= IZR n)%R) by (apply IZR_le; lia).
  assert (HN' : (IZR n <= 68719476736)%R) by (apply IZR_le; lia).
  assert (HX : (X * IZR n = IZR c)%R) by (unfold X; field; lra).
  assert (HX0 : (0 < X <= 1)%R).
  { assert (0 < IZR c <= IZR n)%R by (split; [apply IZR_lt | apply IZR_le]; lia).
    split; nra. }
  set (vq := F2R (Zpos m) e) in *. set (vp := F2R (Zpos m') e') in *.
  assert (HY : (IZR (Zpos m' * 100) = 100 * vp * IZR b)%R).
  { unfold vp, F2R, b. rewrite mult_IZR, <- pow2_IZR by lia.
    replace (100 * (IZR (Zpos m') * powerRZ 2 e') * powerRZ 2 (- e'))%R
      with (IZR (Zpos m') * 100 * (powerRZ 2 e' * powerRZ 2 (- e')))%R by ring.
    rewrite <- pow2_add, Z.add_opp_diag_r. cbn [powerRZ]. ring. }
  assert (HB : (1 <= IZR b)%R) by (apply IZR_le; lia).
  assert (HhR : (- (1 / 2) <= IZR h - 100 * vp <= 1 / 2)%R).
  { assert (Hh' : - b <= 2 * (h * b - Zpos m' * 100) <= b) by lia.
    destruct Hh' as [H1 H2]. apply IZR_le in H1, H2.
    rewrite opp_IZR in H1. rewrite !mult_IZR, minus_IZR, HY, mult_IZR in H1, H2.
    split; nra. }
  destruct (Z.le_gt_cases (2 * Z.abs (h * n - 10000 * c)) n) as [|Hbad];
    [assumption|exfalso].
  assert (HD : (- (1 / 2 + 45 / 10000000000000) <= IZR h - 10000 * X
                <= 1 / 2 + 45 / 10000000000000)%R) by lra.
  assert (Hcase : n + 1 <= 2 * (h * n - 10000 * c)
                  \/ n + 1 <= 2 * (10000 * c - h * n)) by lia.
  destruct Hcase as [Hk|Hk]; apply IZR_le in Hk;
    rewrite plus_IZR, mult_IZR, minus_IZR, !mult_IZR, <- HX in Hk; nra.
Qed.

Local Close Scope Z_scope.

(** ** One trial *)

Lemma for_each_cons {A} (x : A) (xs : list A) (body : A -> M unit)
  (st : state) :
  for_each (x :: xs) body st =
  match body x st with
  | (Ok _, st') => for_each xs body st'
  | (Raise e, st') => (Raise e, st')
  end.
Proof. reflexivity. Qed.

Lemma trial_ok (n i : nat) (st : state) :
  returncode (child (spawned st)) = 0%Z ->
  trial n i st = (Ok tt, after_trial n st i).
Proof.
  intros H. unfold trial, after_trial, cleaned, bind, print, check_output.
  cbn [spawned set_stdout set_spawned]. rewrite H. cbn [Z.eqb].
  unfold append_delayed.
  destruct (search link_re (strip_ansi (output (child (spawned st)))));
    destruct (search winner_re (strip_ansi (output (child (spawned st)))));
    reflexivity.
Qed.

Lemma trial_fails (n i : nat) (st : state) :
  returncode (child (spawned st)) <> 0%Z ->
  trial n i st =
  (Raise (CalledProcessError (returncode (child (spawned st)))),
   set_spawned (S (spawned st))
     (set_stdout (stdout st ++ [run_line n i]) st)).
Proof.
  intros H. unfold trial, bind, print, check_output.
  cbn [spawned set_stdout set_spawned].
  destruct (Z.eqb_spec (returncode (child (spawned st))) 0);
    [contradiction | reflexivity].
Qed.

(** ** The trial loop *)

Lemma spawned_after_trials (n k : nat) :
  forall (a : nat) (st : state),
    spawned (after_trials n (seq a k) st) = (spawned st + k)%nat.
Proof.
  unfold after_trials.
  induction k as [|k IH]; intros a st; cbn [seq fold_left].
  - lia.
  - rewrite IH. cbn [after_trial spawned]. lia.
Qed.

Lemma trials_ok (n k : nat) :
  forall (a : nat) (st : state),
    spawned st = a ->
    (forall j, (a <= j < a + k)%nat -> returncode (child j) = 0%Z) ->
    for_each (seq a k) (trial n) st = (Ok tt, after_trials n (seq a k) st).
Proof.
  unfold after_trials.
  induction k as [|k IH]; intros a st Ha Hok; cbn [seq fold_left].
  - reflexivity.
  - rewrite for_each_cons, trial_ok by (rewrite Ha; apply Hok; lia).
    apply IH.
    + cbn [after_trial spawned]. lia.
    + intros j Hj. apply Hok. lia.
Qed.

Lemma trials_fail (n k : nat) :
  forall (a f : nat) (st : state),
    spawned st = a ->
    (a <= f < a + k)%nat ->
    (forall j, (a <= j < f)%nat -> returncode (child j) = 0%Z) ->
    returncode (child f) <> 0%Z ->
    let st' := after_trials n (seq a (f - a)) st in
    for_each (seq a k) (trial n) st =
    (Raise (CalledProcessError (returncode (child f))),
     set_spawned (S f) (set_stdout (stdout st' ++ [run_line n f]) st')).
Proof.
  unfold after_trials.
  induction k as [|k IH]; intros a f st Ha Hf Hok Hbad; [lia|].
  cbn [seq]. rewrite for_each_cons.
  destruct (Nat.eq_dec a f) as [->|Hne].
  - rewrite Nat.sub_diag. cbn [seq fold_left].
    rewrite trial_fails by (rewrite Ha; exact Hbad). rewrite Ha. reflexivity.
  - rewrite trial_ok by (rewrite Ha; apply Hok; lia).
    replace (f - a)%nat with (S (f - S a)) by lia. cbn [seq fold_left].
    apply IH; [cbn [after_trial spawned]; lia | lia | | exact Hbad].
    intros j Hj. apply Hok. lia.
Qed.

Lemma first_failure (n : nat) :
  (forall j, (j < n)%nat -> returncode (child j) = 0%Z)
  \/ exists f, (f < n)%nat /\ returncode (child f) <> 0%Z
               /\ forall j, (j < f)%nat -> returncode (child j) = 0%Z.
Proof.
  induction n as [|n [IH|(f & Hf & Hbad & Hok)]].
  - left. intros j Hj. lia.
  - destruct (Z.eq_dec (returncode (child n)) 0) as [E|E].
    + left. intros j Hj. destruct (Nat.eq_dec j n) as [->|]; [exact E|].
      apply IH. lia.
    + right. exists n. repeat split; [lia | exact E | exact IH].
  - right. exists f. repeat split; [lia | exact Hbad | exact Hok].
Qed.

(** *** What the loop maintains *)

Lemma total_incr (k : text) (d : list (text * Z)) :
  total (incr k d) = (total d + 1)%Z.
Proof.
  unfold total. induction d as [|[k' v] d IH]; cbn [incr].
  - reflexivity.
  - destruct (text_eqb k k'); cbn [map snd fold_right] in *; lia.
Qed.

Lemma counts_incr (k : text) (d : list (text * Z)) :
  Forall (fun item => (1 <= snd item)%Z) d ->
  Forall (fun item => (1 <= snd item)%Z) (incr k d).
Proof.
  induction 1 as [|[k' v] d Hv Hd IH]; cbn [incr].
  - constructor; [cbn; lia | constructor].
  - destruct (text_eqb k k'); constructor; cbn [snd] in *;
      try lia; assumption.
Qed.

Lemma count_le_total (d : list (text * Z)) (item : text * Z) :
  Forall (fun item => (1 <= snd item)%Z) d ->
  In item d -> (1 <= snd item <= total d)%Z.
Proof.
  unfold total. induction 1 as [|x d Hx Hd IH]; intros Hin; [destruct Hin|].
  cbn [map fold_right].
  assert (0 <= fold_right Z.add 0 (map snd d))%Z.
  { clear -Hd. induction Hd; cbn [map fold_right]; lia. }
  destruct Hin as [->|Hin]; [lia|]. specialize (IH Hin). lia.
Qed.

Lemma progress_run_line (n i : nat) : progress_line (run_line n i) = true.
Proof.
  unfold progress_line, run_line. rewrite starts_with_app. reflexivity.
Qed.

Lemma progress_winner_line (w : text) :
  progress_line (codes "Winner: " ++ w) = true.
Proof.
  unfold progress_line. rewrite (starts_with_app (codes "Winner: ")).
  apply orb_true_r.
Qed.

Lemma trial_inv_initial : trial_inv initial.
Proof. split; cbn; try reflexivity; try lia; constructor. Qed.

Lemma trial_inv_step (n i : nat) (st : state) :
  trial_inv st -> trial_inv (after_trial n st i).
Proof.
  intros [Hf Hd Hw Hl Ht Hc Ho]. unfold after_trial.
  destruct (search winner_re (cleaned (spawned st))) as [g|];
    destruct (search link_re (cleaned (spawned st))) as [g'|];
    split; cbn [file delayed_moves_per_game winner_per_game game_links
                winners stdout spawned];
    rewrite ?length_app; cbn [length]; try lia; try assumption;
    try (rewrite total_incr, Ht; lia);
    try (apply counts_incr; assumption);
    repeat (apply Forall_app; split); try assumption;
    repeat constructor;
    try apply progress_run_line; try apply progress_winner_line.
Qed.

Lemma trial_inv_after_trials (n : nat) (trials : list nat) :
  forall st, trial_inv st -> trial_inv (after_trials n trials st).
Proof.
  unfold after_trials.
  induction trials as [|i trials IH]; intros st H; cbn [fold_left].
  - exact H.
  - apply IH, trial_inv_step, H.
Qed.

Lemma winners_after_all_matched (n k : nat) :
  forall (a : nat) (st : state),
    spawned st = a ->
    (forall j, (a <= j < a + k)%nat -> search winner_re (cleaned j) <> None) ->
    length (winner_per_game (after_trials n (seq a k) st)) =
    (length (winner_per_game st) + k)%nat.
Proof.
  unfold after_trials.
  induction k as [|k IH]; intros a st Ha Hm; cbn [seq fold_left]; [lia|].
  rewrite (IH (S a)).
  - unfold after_trial. rewrite Ha.
    destruct (search winner_re (cleaned a)) as [g|] eqn:E.
    + cbn [winner_per_game]. rewrite length_app. cbn [length]. lia.
    + exfalso. apply (Hm a); [lia | exact E].
  - cbn [after_trial spawned]. lia.
  - intros j Hj. apply Hm. lia.
Qed.

(** ** The summary loop *)

Lemma rate_line_ok (n : nat) (w : text) (c : Z) :
  (1 <= c <= Z.of_nat n)%Z -> exists line, rate_line n w c = Ok line.
Proof.
  intros H. unfold rate_line, win_rate, int_of_nat.
  destruct (int_truediv_ok c (Z.of_nat n) H) as [q ->].
  eexists. reflexivity.
Qed.

Lemma set_stdout_same (st : state) : set_stdout (stdout st) st = st.
Proof. destruct st; reflexivity. Qed.

Lemma report_ok (n : nat) (item : text * Z) (st : state) :
  (exists line, rate_line n (fst item) (snd item) = Ok line) ->
  delayed_moves_per_game st <> [] ->
  report n item st =
  (Ok tt,
   set_stdout
     (stdout st ++ report_lines n (delayed_moves_per_game st) item) st).
Proof.
  intros [line Hline] Hd. destruct item as [w c]. cbn [fst snd] in Hline.
  unfold report, report_lines, bind, lift, get, print. cbn [fst snd].
  rewrite Hline.
  cbn [delayed_moves_per_game set_stdout stdout].
  destruct (delayed_moves_per_game st) as [|x l] eqn:E; [contradiction|].
  cbn [py_max].
  destruct (fold_left Z.max l x >? 10)%Z; cbn [set_stdout stdout
    winners winner_per_game delayed_moves_per_game game_links file spawned];
    rewrite <- ?app_assoc; reflexivity.
Qed.

Lemma summary_ok (n : nat) (items : list (text * Z)) :
  forall st : state,
    (forall item, In item items ->
                  exists line, rate_line n (fst item) (snd item) = Ok line) ->
    (items = [] \/ delayed_moves_per_game st <> []) ->
    for_each items (report n) st =
    (Ok tt,
     set_stdout
       (stdout st
        ++ flat_map (report_lines n (delayed_moves_per_game st)) items) st).
Proof.
  induction items as [|item items IH]; intros st Hrate Hd.
  - cbn [for_each flat_map]. rewrite app_nil_r, set_stdout_same. reflexivity.
  - destruct Hd as [Hd|Hd]; [discriminate|].
    rewrite for_each_cons, report_ok; [|apply Hrate; left; reflexivity|exact Hd].
    rewrite IH.
    + cbn [flat_map set_stdout stdout delayed_moves_per_game winners
             winner_per_game game_links file spawned].
      rewrite <- app_assoc. reflexivity.
    + intros it Hit. apply Hrate. right. exact Hit.
    + right. exact Hd.
Qed.

(** ** Writing the links file *)

Lemma nth_error_skipn {A} (l : list A) (i : nat) (x : A) :
  nth_error l i = Some x -> skipn i l = x :: skipn (S i) l.
Proof.
  revert l. induction i as [|i IH]; intros [|y l] H; try discriminate.
  - injection H as ->. reflexivity.
  - cbn [nth_error] in H. apply IH in H. exact H.
Qed.

Lemma paired_lines_nil_l (ds : list Z) (ls : list text) :
  paired_lines [] ds ls = [].
Proof. reflexivity. Qed.

Lemma set_file_same (st : state) (chunks : list text) :
  file st = Some chunks -> set_file (Some (chunks ++ [])) st = st.
Proof. intros H. rewrite app_nil_r, <- H. destruct st; reflexivity. Qed.

Lemma write_links_from (ls : list text) :
  forall (a : nat) (st : state) (chunks : list text),
    file st = Some chunks ->
    (a + length ls <= length (delayed_moves_per_game st))%nat ->
    for_each (combine (seq a (length ls)) ls) write_link st =
    (if (length ls =? 0)%nat
        || (a + length ls <=? length (winner_per_game st))%nat
     then Ok tt else Raise IndexError,
     set_file
       (Some (chunks
              ++ paired_lines (skipn a (winner_per_game st))
                   (skipn a (delayed_moves_per_game st)) ls)) st).
Proof.
  induction ls as [|item ls IH]; intros a st chunks Hf Hd.
  - cbn [length seq combine for_each Nat.eqb orb]. unfold paired_lines.
    rewrite !combine_nil. cbn [map]. rewrite set_file_same by exact Hf.
    reflexivity.
  - cbn [length seq combine]. rewrite for_each_cons.
    cbn [length] in Hd.
    unfold write_link at 1. unfold bind, get, lift, index, write.
    destruct (nth_error (winner_per_game st) a) as [w|] eqn:Ew.
    + destruct (nth_error (delayed_moves_per_game st) a) as [d|] eqn:Ed.
      * rewrite Hf. rewrite (IH (S a) _ (chunks ++ [link_line w d item]));
          [|reflexivity|cbn [set_file delayed_moves_per_game]; lia].
        cbn [set_file winner_per_game delayed_moves_per_game winners
               game_links stdout file spawned].
        rewrite (nth_error_skipn _ _ _ Ew), (nth_error_skipn _ _ _ Ed).
        unfold paired_lines. cbn [combine map fst snd Nat.eqb orb].
        rewrite <- app_assoc. cbn [app].
        assert (Ha : (a < length (winner_per_game st))%nat).
        { apply nth_error_Some. rewrite Ew. discriminate. }
        replace (a + S (length ls) <=? length (winner_per_game st))%nat
          with ((length ls =? 0)%nat
                || (S a + length ls <=? length (winner_per_game st))%nat).
        { reflexivity. }
        destruct (length ls) as [|k].
        { cbn [Nat.eqb orb]. symmetry. apply Nat.leb_le. lia. }
        cbn [Nat.eqb orb]. f_equal. lia.
      * exfalso. apply nth_error_None in Ed. lia.
    + apply nth_error_None in Ew.
      rewrite (skipn_all2 _ Ew), paired_lines_nil_l.
      rewrite set_file_same by exact Hf.
      cbn [Nat.eqb orb].
      destruct (Nat.leb_spec (a + S (length ls)) (length (winner_per_game st)));
        [lia | reflexivity].
Qed.

(** ** The whole run *)

Lemma spawned_after_all (n : nat) :
  spawned (after_trials n (seq 0 n) initial) = n.
Proof. rewrite spawned_after_trials. reflexivity. Qed.

Lemma rates_defined_after_trials (n : nat) (item : text * Z) :
  In item (winners (after_trials n (seq 0 n) initial)) ->
  (1 <= snd item <= Z.of_nat n)%Z.
Proof.
  intros Hin.
  destruct (trial_inv_after_trials n (seq 0 n) initial trial_inv_initial)
    as [_ _ Hw _ Ht Hc _].
  rewrite spawned_after_all in Hw.
  pose proof (count_le_total _ _ Hc Hin). lia.
Qed.

(** When every child exits with status 0, the run gets to the links file;
    it ends well exactly when there are at least as many winners as links. *)
Lemma harness_completes (n : nat) :
  (forall j, (j < n)%nat -> returncode (child j) = 0%Z) ->
  let st := after_trials n (seq 0 n) initial in
  harness n initial =
  (if links_fit st then Ok tt else Raise IndexError, finished n st).
Proof.
  intros Hok st. unfold harness, range.
  unfold bind at 1. rewrite trials_ok; [|reflexivity|intros j Hj; apply Hok; lia].
  fold st.
  destruct (trial_inv_after_trials n (seq 0 n) initial trial_inv_initial)
    as [Hf Hd Hw Hl Ht Hc Ho].
  fold st in Hf, Hd, Hw, Hl, Ht, Hc, Ho.
  pose proof (spawned_after_all n) as Hs. fold st in Hs. rewrite Hs in *.
  unfold bind, print, get, open_w.
  cbn [winners set_stdout stdout].
  rewrite summary_ok.
  - cbn [set_stdout set_file game_links winners winner_per_game
           delayed_moves_per_game stdout file spawned].
    unfold enumerate.
    rewrite (write_links_from (game_links st) 0 _ []);
      [|reflexivity|cbn [delayed_moves_per_game set_file set_stdout]; lia].
    cbn [winner_per_game delayed_moves_per_game skipn app Nat.add
           set_file set_stdout game_links winners stdout file spawned].
    unfold finished, links_fit.
    replace ((length (game_links st) =? 0)%nat
             || (length (game_links st) <=? length (winner_per_game st))%nat)
      with (length (game_links st) <=? length (winner_per_game st))%nat.
    + destruct (length (game_links st) <=? length (winner_per_game st))%nat;
        cbn [set_file set_stdout game_links winners winner_per_game
               delayed_moves_per_game stdout file spawned];
        rewrite <- ?app_assoc; cbn [app]; rewrite ?app_nil_r;
        reflexivity.
    + destruct (length (game_links st)); reflexivity.
  - intros item Hin. apply rate_line_ok.
    apply rates_defined_after_trials. exact Hin.
  - cbn [delayed_moves_per_game set_stdout].
    destruct n as [|n]; [left; reflexivity|right].
    intros E. rewrite E in Hd. discriminate.
Qed.

(** When a child exits with a non-zero status, the run stops there. *)
Lemma harness_aborts (n f : nat) :
  (f < n)%nat ->
  returncode (child f) <> 0%Z ->
  (forall j, (j < f)%nat -> returncode (child j) = 0%Z) ->
  let st := after_trials n (seq 0 f) initial in
  harness n initial =
  (Raise (CalledProcessError (returncode (child f))),
   set_spawned (S f) (set_stdout (stdout st ++ [run_line n f]) st)).
Proof.
  intros Hf Hbad Hok st. unfold harness, range. unfold bind at 1.
  rewrite (trials_fail n n 0 f initial);
    [|reflexivity|lia|intros j Hj; apply Hok; lia|exact Hbad].
  rewrite Nat.sub_0_r. reflexivity.
Qed.

(** ** The lines of the links file *)

Lemma paired_lines_length (ws : list text) (ds : list Z) (ls : list text) :
  length (paired_lines ws ds ls)
  = Nat.min (length ws) (Nat.min (length ds) (length ls)).
Proof. unfold paired_lines. rewrite length_map, !length_combine. reflexivity. Qed.

Lemma paired_lines_nth (ws : list text) :
  forall (ds : list Z) (ls : list text) (j : nat) w d l,
    nth_error ws j = Some w -> nth_error ds j = Some d ->
    nth_error ls j = Some l ->
    nth_error (paired_lines ws ds ls) j = Some (link_line w d l).
Proof.
  induction ws as [|w0 ws IH]; intros [|d0 ds] [|l0 ls] [|j] w d l Hw Hd Hl;
    try discriminate.
  - injection Hw as ->. injection Hd as ->. injection Hl as ->. reflexivity.
  - apply (IH ds ls j w d l Hw Hd Hl).
Qed.


(** ** The claims *)

(** C4: with at least one trial, when every child exits with status 0 and
    every cleaned output matches the winner pattern, the run ends normally
    and the counts of the winner mapping add up to the number of trials. *)
Theorem win_counts_sum_to_trials (n : nat) :
  (1 <= n)%nat ->
  (forall j, (j < n)%nat ->
             returncode (child j) = 0%Z
             /\ search winner_re (cleaned j) <> None) ->
  fst (harness n initial) = Ok tt
  /\ total (winners (snd (harness n initial))) = Z.of_nat n.
Proof.
  intros Hn H.
  rewrite (harness_completes n (fun j Hj => proj1 (H j Hj))).
  set (st := after_trials n (seq 0 n) initial).
  destruct (trial_inv_after_trials n (seq 0 n) initial trial_inv_initial)
    as [_ _ _ Hl Ht _ _].
  fold st in Hl, Ht. unfold st in Hl at 2. rewrite spawned_after_all in Hl.
  assert (Hw : length (winner_per_game st) = n).
  { unfold st. rewrite (winners_after_all_matched n n 0 initial eq_refl).
    - reflexivity.
    - intros j Hj. apply H. lia. }
  cbn [fst snd finished set_file set_stdout winners]. split.
  - unfold links_fit. rewrite Hw.
    destruct (Nat.leb_spec (length (game_links st)) n); [reflexivity|lia].
  - rewrite Ht, Hw. reflexivity.
Qed.


(** C6: the count a trial records is the number of places at which the
    warning phrase occurs in the cleaned output; occurrences never overlap,
    and the count is 0 when the phrase is absent. *)
Theorem delayed_count_is_number_of_occurrences (n i : nat) (st : state) :
  returncode (child (spawned st)) = 0%Z ->
  let hits := occurrences warning_phrase (cleaned (spawned st)) in
  delayed_moves_per_game (snd (trial n i st))
  = delayed_moves_per_game st ++ [Z.of_nat (length hits)]
  /\ (forall a b, In a hits -> In b hits -> (a < b)%nat ->
                  (a + length warning_phrase <= b)%nat)
  /\ ((forall pre post,
          cleaned (spawned st) <> pre ++ warning_phrase ++ post) ->
      hits = []).
Proof.
  intros Hok hits. rewrite (trial_ok n i st Hok). split; [|split].
  - unfold after_trial. cbn [snd delayed_moves_per_game].
    unfold count_delayed. rewrite findall_counts_occurrences. reflexivity.
  - apply occurrences_apart.
  - intros Habsent. destruct hits as [|a hits'] eqn:E; [reflexivity|].
    exfalso. assert (Ha : In a hits) by (rewrite E; left; reflexivity).
    apply occurrences_spec in Ha. destruct Ha as [_ [post Ha]].
    apply (Habsent (firstn a (cleaned (spawned st))) post).
    rewrite <- Ha. symmetry. apply firstn_skipn.
Qed.

(** C8: a trial whose child exits with status 0 raises nothing; it always
    appends its delayed-move count; without a winner match the winner list
    and the mapping are left alone, without a link match the link list is
    left alone; and a link without a winner makes the link list one longer
    while the winner list keeps its length, so later links and winners no
    longer meet at the same position. *)
Theorem missing_match_leaves_no_entry (n i : nat) (st : state) :
  returncode (child (spawned st)) = 0%Z ->
  let out := cleaned (spawned st) in
  let st' := snd (trial n i st) in
  fst (trial n i st) = Ok tt
  /\ delayed_moves_per_game st'
     = delayed_moves_per_game st ++ [count_delayed out]
  /\ (search winner_re out = None ->
      winner_per_game st' = winner_per_game st /\ winners st' = winners st)
  /\ (search link_re out = None -> game_links st' = game_links st)
  /\ (search winner_re out = None -> search link_re out <> None ->
      length (game_links st') = S (length (game_links st))
      /\ length (winner_per_game st') = length (winner_per_game st)).
Proof.
  intros Hok out st'. unfold st'. rewrite (trial_ok n i st Hok).
  cbn [fst snd]. unfold after_trial. fold out.
  cbn [delayed_moves_per_game winner_per_game winners game_links].
  split; [reflexivity|]. split; [reflexivity|]. split; [|split].
  - intros Hw. rewrite Hw. split; reflexivity.
  - intros Hl. rewrite Hl. reflexivity.
  - intros Hw Hl. rewrite Hw.
    destruct (search link_re out); [|contradiction]. split.
    + rewrite length_app. cbn [length]. lia.
    + reflexivity.
Qed.

(** C9: when some child exits with a non-zero status, the run raises at the
    first such child [f]: no child is spawned after it or twice, the links
    file is never opened, and the console holds progress lines only, so no
    part of the report was printed. *)
Theorem failing_child_aborts_run (n : nat) :
  (exists i, (i < n)%nat /\ returncode (child i) <> 0%Z) ->
  exists f,
    (f < n)%nat
    /\ returncode (child f) <> 0%Z
    /\ (forall j, (j < f)%nat -> returncode (child j) = 0%Z)
    /\ fst (harness n initial)
       = Raise (CalledProcessError (returncode (child f)))
    /\ spawned (snd (harness n initial)) = S f
    /\ file (snd (harness n initial)) = None
    /\ Forall (fun l => progress_line l = true)
         (stdout (snd (harness n initial)))
    /\ ~ In (codes "Results:") (stdout (snd (harness n initial))).
Proof.
  intros (i & Hi & Hbad).
  destruct (first_failure n) as [Hok|(f & Hf & Hfbad & Hok)].
  - exfalso. apply Hbad, Hok, Hi.
  - exists f. rewrite (harness_aborts n f Hf Hfbad Hok).
    set (st := after_trials n (seq 0 f) initial).
    destruct (trial_inv_after_trials n (seq 0 f) initial trial_inv_initial)
      as [Hfile _ _ _ _ _ Hout].
    fold st in Hfile, Hout.
    cbn [fst snd set_spawned set_stdout spawned file stdout].
    assert (Hall : Forall (fun l => progress_line l = true)
                     (stdout st ++ [run_line n f])).
    { apply Forall_app. split; [exact Hout|].
      constructor; [apply progress_run_line | constructor]. }
    repeat split; try assumption.
    intros Hin. rewrite Forall_forall in Hall. apply Hall in Hin.
    discriminate.
Qed.

(** C10: when every child exits with status 0 and more links than winners
    were recorded, the file loop raises IndexError at the first link that
    has no winner; the file then holds the lines of the links before it, one
    per recorded winner, each pairing the entries at its position. *)
Theorem more_links_than_winners_crashes (n : nat) :
  (forall j, (j < n)%nat -> returncode (child j) = 0%Z) ->
  let r := harness n initial in
  (length (winner_per_game (snd r)) < length (game_links (snd r)))%nat ->
  fst r = Raise IndexError
  /\ exists lines,
       file (snd r) = Some lines
       /\ length lines = length (winner_per_game (snd r))
       /\ forall j w d l,
            nth_error (winner_per_game (snd r)) j = Some w ->
            nth_error (delayed_moves_per_game (snd r)) j = Some d ->
            nth_error (game_links (snd r)) j = Some l ->
            nth_error lines j = Some (link_line w d l).
Proof.
  intros Hok r. unfold r. rewrite (harness_completes n Hok).
  set (st := after_trials n (seq 0 n) initial).
  destruct (trial_inv_after_trials n (seq 0 n) initial trial_inv_initial)
    as [_ Hd _ Hl _ _ _].
  fold st in Hd, Hl. unfold st in Hd at 2. unfold st in Hl at 2.
  rewrite spawned_after_all in Hd, Hl.
  cbn [fst snd finished set_file set_stdout game_links winner_per_game
         delayed_moves_per_game file].
  intros Hmore. split.
  - unfold links_fit.
    destruct (Nat.leb_spec (length (game_links st))
                (length (winner_per_game st))); [lia | reflexivity].
  - eexists. split; [reflexivity|]. split.
    + rewrite paired_lines_length. lia.
    + intros j w d l. apply paired_lines_nth.
Qed.

(** * Further properties of the script *)

(** ** Stripping only deletes *)

Lemma subsequence_refl (a : text) : subsequence a a.
Proof. induction a; constructor; assumption. Qed.

Lemma subsequence_skip (pre a b : text) :
  subsequence a b -> subsequence a (pre ++ b).
Proof.
  intros H. induction pre as [|c pre IH]; [exact H|].
  cbn [app]. constructor. exact IH.
Qed.

Lemma subsequence_length (a b : text) :
  subsequence a b -> (length a <= length b)%nat.
Proof. induction 1; cbn [length]; lia. Qed.

(** X1: [re.sub] with an empty replacement only deletes characters: the
    stripped text is the output with some characters left out, in the same
    order, and so it is never longer. *)
Theorem strip_ansi_only_deletes (s : text) :
  subsequence (strip_ansi s) s
  /\ (length (strip_ansi s) <= length s)%nat.
Proof.
  assert (H : subsequence (strip_ansi s) s).
  { unfold strip_ansi.
    remember (length s) as n eqn:Hn. revert s Hn.
    induction n as [n IH] using lt_wf_ind. intros [|c s] Hn.
    - simp sub_empty. constructor.
    - rewrite sub_empty_cons.
      destruct (match_len ansi_re (c :: s)) as [[|k]|] eqn:E.
      + constructor. apply (IH (length s)); [subst n; cbn; lia | reflexivity].
      + rewrite <- (firstn_skipn k s) at 2.
        apply (subsequence_skip (c :: firstn k s)).
        apply (IH (length (skipn k s))); [|reflexivity].
        subst n. cbn [length]. rewrite length_skipn. lia.
      + constructor. apply (IH (length s)); [subst n; cbn; lia | reflexivity]. }
  split; [exact H | apply subsequence_length, H].
Qed.

(** X2: text in front of the first ESC is passed through unchanged. *)
Theorem strip_ansi_keeps_plain_prefix (a b : text) :
  ~ In ESC a -> strip_ansi (a ++ b) = a ++ strip_ansi b.
Proof.
  unfold strip_ansi. induction a as [|c a IH]; intros Hn; [reflexivity|].
  cbn [app]. rewrite sub_empty_cons, ansi_needs_esc.
  - rewrite IH; [reflexivity|]. intros Hin. apply Hn. right. exact Hin.
  - intros ->. apply Hn. left. reflexivity.
Qed.

(** X3: the warning count is bounded by the length of the text: each
    counted occurrence takes its own 33 characters. *)
Theorem delayed_count_bounded_by_length (s : text) :
  (count_delayed s * 33 <= Z.of_nat (length s))%Z.
Proof.
  unfold count_delayed.
  assert (H : (length (findall delayed_re s) * 33 <= length s)%nat);
    [|lia].
  remember (length s) as n eqn:Hn. revert s Hn.
  induction n as [n IH] using lt_wf_ind. intros [|c s] Hn.
  - simp findall. cbn. lia.
  - rewrite findall_cons. unfold delayed_re. rewrite match_len_lit.
    destruct (starts_with warning_phrase (c :: s)) eqn:E.
    + apply starts_with_length in E.
      change (length warning_phrase) with 33%nat in *. cbn [length] in *.
      assert (H := IH (length (skipn 32 s))
                     ltac:(rewrite length_skipn; lia) (skipn 32 s) eq_refl).
      rewrite length_skipn in H. unfold delayed_re in H. lia.
    + assert (H := IH (length s) ltac:(subst n; cbn; lia) s eq_refl).
      unfold delayed_re in H. subst n. cbn [length]. lia.
Qed.

(** ** Which sequences the escape pattern accepts *)

Lemma rmatch_cat {A} r1 r2 s g (k : text -> captures -> option A) :
  rmatch (r1 @@ r2) s g k = rmatch r1 s g (fun s' g' => rmatch r2 s' g' k).
Proof. reflexivity. Qed.

Lemma rmatch_opt {A} r s g (k : text -> captures -> option A) :
  rmatch (Opt r) s g k = orelse (rmatch r s g k) (k s g).
Proof. reflexivity. Qed.

Lemma rmatch_grp {A} i r s g (k : text -> captures -> option A) :
  rmatch (Grp i r) s g k =
  rmatch r s g (fun s' g' => k s' ((i, firstn (length s - length s')%nat s) :: g')).
Proof. reflexivity. Qed.

Lemma rmatch_chr_inv {A} c s g (k : text -> captures -> option A) res :
  rmatch (Chr c) s g k = Some res ->
  exists s', s = c :: s' /\ k s' g = Some res.
Proof.
  destruct s as [|x s]; cbn [rmatch]; [discriminate|].
  destruct (N.eqb_spec x c) as [->|]; [|discriminate].
  intros H. exists s. split; [reflexivity | exact H].
Qed.

Lemma rmatch_cls_inv {A} p s g (k : text -> captures -> option A) res :
  rmatch (Cls p) s g k = Some res ->
  exists c s', s = c :: s' /\ p c = true /\ k s' g = Some res.
Proof.
  destruct s as [|x s]; cbn [rmatch]; [discriminate|].
  destruct (p x) eqn:E; [|discriminate].
  intros H. exists x, s. repeat split; assumption.
Qed.

Lemma rmatch_rep12_inv {A} p s g (k : text -> captures -> option A) res :
  rmatch (Rep (Cls p) 1 2) s g k = Some res ->
  exists a s1, s = a :: s1 /\ p a = true
    /\ (k s1 g = Some res
        \/ exists b s2, s1 = b :: s2 /\ p b = true /\ k s2 g = Some res).
Proof.
  cbn [rmatch Nat.eqb pred]. intros H.
  apply orelse_some in H. destruct H as [H|H]; [|discriminate].
  destruct s as [|a s1]; [discriminate|].
  destruct (p a) eqn:Ea; [|discriminate].
  exists a, s1. split; [reflexivity|]. split; [exact Ea|].
  apply orelse_some in H. destruct H as [H|H]; [|left; exact H].
  right. destruct s1 as [|b s2]; [discriminate|].
  destruct (p b) eqn:Eb; [|discriminate].
  exists b, s2. repeat split; assumption.
Qed.

Lemma final_inv s g rest g' :
  rmatch (Cls mGK) s g (fun s' g0 => Some (s', g0)) = Some (rest, g') ->
  exists f, s = f :: rest /\ mGK f = true.
Proof.
  intros H. apply rmatch_cls_inv in H. destruct H as (c & s' & -> & Hc & H).
  injection H as <- _. exists c. split; [reflexivity | exact Hc].
Qed.

Lemma ansi_shape_forward s rest g :
  match_at ansi_re s = Some (rest, g) ->
  exists p f, s = ESC :: 91 :: p ++ f :: rest /\ is_params p = true /\ mGK f = true.
Proof.
  unfold match_at, ansi_re. intros H.
  rewrite rmatch_cat in H. apply rmatch_chr_inv in H. destruct H as (s0 & -> & H).
  rewrite rmatch_cat in H. apply rmatch_chr_inv in H. destruct H as (s1 & -> & H).
  rewrite rmatch_cat, rmatch_opt in H. apply orelse_some in H.
  destruct H as [H|H].
  - rewrite rmatch_grp, rmatch_cat in H. apply rmatch_rep12_inv in H.
    destruct H as (a & s2 & -> & Ha & H).
    assert (Hopt : forall t g0,
      rmatch (Opt (Grp 2 (Chr 59 @@ Rep (Cls digit) 1 2))) t g0
        (fun s' g' => rmatch (Cls mGK) s' ((1%nat, firstn (length (a :: s2) - length s')%nat (a :: s2)) :: g')
                        (fun s'0 g1 => Some (s'0, g1))) = Some (rest, g) ->
      exists q f, t = q ++ f :: rest /\ mGK f = true
        /\ (q = [] \/ exists c, digit c = true /\ (q = [59; c] \/ exists d, digit d = true /\ q = [59; c; d]))).
    { intros t g0 Ho. rewrite rmatch_opt in Ho. apply orelse_some in Ho.
      destruct Ho as [Ho|Ho].
      - rewrite rmatch_grp, rmatch_cat in Ho. apply rmatch_chr_inv in Ho.
        destruct Ho as (t1 & -> & Ho). apply rmatch_rep12_inv in Ho.
        destruct Ho as (c & t2 & -> & Hc & [Ho|(d & t3 & -> & Hd & Ho)]).
        + apply final_inv in Ho. destruct Ho as (f & -> & Hf).
          exists [59; c], f. repeat split; eauto.
        + apply final_inv in Ho. destruct Ho as (f & -> & Hf).
          exists [59; c; d], f. repeat split; eauto 10.
      - apply final_inv in Ho. destruct Ho as (f & -> & Hf).
        exists [], f. repeat split; auto. }
    destruct H as [H|(b & s3 & -> & Hb & H)]; apply Hopt in H;
      destruct H as (q & f & -> & Hf & Hq).
    + exists (a :: q), f. split; [reflexivity|]. split; [|exact Hf].
      destruct Hq as [->|(c & Hc & [->|(d & Hd & ->)])]; cbn [is_params];
        rewrite ?Ha, ?Hc, ?Hd, ?N.eqb_refl; cbn; reflexivity.
    + exists (a :: b :: q), f. split; [reflexivity|]. split; [|exact Hf].
      destruct Hq as [->|(c & Hc & [->|(d & Hd & ->)])]; cbn [is_params];
        rewrite ?Ha, ?Hb, ?Hc, ?Hd, ?N.eqb_refl; cbn; reflexivity.
  - apply final_inv in H. destruct H as (f & -> & Hf).
    exists [], f. repeat split; auto.
Qed.

Lemma digit_classes c :
  digit c = true -> (c =? 59) = false /\ mGK c = false /\ (c =? ESC) = false.
Proof.
  unfold digit, mGK, ESC. intros H. apply andb_true_iff in H.
  destruct H as [H1 H2]. apply N.leb_le in H1, H2.
  rewrite !orb_false_iff, !N.eqb_neq. lia.
Qed.

Lemma final_classes f :
  mGK f = true -> (f =? 59) = false /\ digit f = false.
Proof.
  unfold digit, mGK. intros H. rewrite !orb_true_iff, !N.eqb_eq in H.
  destruct H as [[->| ->]| ->]; split; reflexivity.
Qed.

Lemma ansi_shape_backward (p : text) (f : N) (rest : text) :
  is_params p = true -> mGK f = true ->
  exists g, match_at ansi_re (ESC :: 91 :: p ++ f :: rest) = Some (rest, g).
Proof.
  intros Hp Hf. destruct (final_classes f Hf) as [Hf1 Hf2].
  unfold match_at, ansi_re.
  destruct p as [|a [|b [|c [|d [|e [|x p]]]]]]; cbn [is_params] in Hp;
    try discriminate;
    repeat match goal with
      | H : _ && _ = true |- _ => apply andb_true_iff in H; destruct H
      | H : _ || _ = true |- _ => apply orb_true_iff in H; destruct H
      | H : (_ =? 59) = true |- _ => apply N.eqb_eq in H; subst
      | H : digit ?c = true |- _ =>
          lazymatch goal with
          | _ : mGK c = false |- _ => fail
          | _ => destruct (digit_classes c H) as (? & ? & ?)
          end
      end;
    cbn [rmatch app Nat.eqb pred ESC];
    repeat match goal with
      | H : ?b = _ |- context [?b] => rewrite H; cbn [orelse N.eqb Pos.eqb]
      end;
    eexists; reflexivity.
Qed.

(** X4: the escape pattern matches at the front of a text exactly when the
    text begins with ESC [, then nothing, one or two digits, or two such
    numbers around a semicolon, then one of m, G, K; the match ends right
    after that letter.  Three digits, a lone semicolon or another final
    letter are not matched. *)
Theorem ansi_pattern_shapes (s rest : text) :
  (exists g, match_at ansi_re s = Some (rest, g))
  <-> exists p f,
        s = ESC :: 91 :: p ++ f :: rest
        /\ is_params p = true /\ mGK f = true.
Proof.
  split.
  - intros [g H]. exact (ansi_shape_forward s rest g H).
  - intros (p & f & -> & Hp & Hf). exact (ansi_shape_backward p f rest Hp Hf).
Qed.

(** X5: a complete sequence at the front of the text is removed whatever
    follows it. *)
Theorem strip_ansi_removes_leading_sequence (p : text) (f : N) (rest : text) :
  is_params p = true -> mGK f = true ->
  strip_ansi (ESC :: 91 :: p ++ f :: rest) = strip_ansi rest.
Proof.
  intros Hp Hf. destruct (ansi_shape_backward p f rest Hp Hf) as [g Hg].
  unfold strip_ansi. rewrite sub_empty_cons. unfold match_len. rewrite Hg.
  cbn [length]. rewrite length_app. cbn [length].
  replace (S (S (length p + S (length rest))) - length rest)%nat
    with (S (S (S (length p)))) by lia.
  f_equal.
  change (skipn (S (S (length p))) (91 :: p ++ f :: rest))
    with (skipn (S (length p)) (p ++ f :: rest)).
  rewrite skipn_app, skipn_all2 by lia.
  replace (S (length p) - length p)%nat with 1%nat by lia. reflexivity.
Qed.

(** ** What the winner and link patterns capture *)

Lemma take_drop_while (p : N -> bool) (s : text) :
  s = take_while p s ++ drop_while p s.
Proof.
  induction s as [|c s IH]; [reflexivity|]. cbn [take_while drop_while].
  destruct (p c); [cbn [app]; f_equal; exact IH | reflexivity].
Qed.

Lemma take_while_all (p : N -> bool) (s : text) :
  Forall (fun c => p c = true) (take_while p s).
Proof.
  induction s as [|c s IH]; cbn [take_while]; [constructor|].
  destruct (p c) eqn:E; constructor; assumption.
Qed.

Lemma drop_while_stops (p : N -> bool) (s : text) (c : N) (t : text) :
  drop_while p s = c :: t -> p c = false.
Proof.
  induction s as [|x s IH]; cbn [drop_while]; [discriminate|].
  destruct (p x) eqn:E; [exact IH|]. intros [= <- _]. exact E.
Qed.

Lemma firstn_take_while (p : N -> bool) (s : text) :
  firstn (length s - length (drop_while p s)) s = take_while p s.
Proof.
  rewrite (take_drop_while p s) at 1 3. rewrite length_app.
  replace (length (take_while p s) + length (drop_while p s)
           - length (drop_while p s))%nat
    with (length (take_while p s) + 0)%nat by lia.
  rewrite firstn_app_2. cbn [firstn]. apply app_nil_r.
Qed.

(** A greedy [p+] that ends the pattern takes the longest run. *)
Lemma plus_cls_longest {A} (p : N -> bool) (F : text -> A) (s : text) :
  plus_cls p s (fun s' => Some (F s')) =
  match s with
  | c :: _ => if p c then Some (F (drop_while p s)) else None
  | [] => None
  end.
Proof.
  induction s as [|c s IH]; [reflexivity|]. cbn [plus_cls drop_while].
  destruct (p c); [|reflexivity]. rewrite IH.
  destruct s as [|d s]; [reflexivity|]. cbn [drop_while].
  destruct (p d); reflexivity.
Qed.

Lemma match_at_capture (cls : N -> bool) (t : text) :
  rmatch (Grp 1 (Plus cls)) t [] (fun s' g => Some (s', g)) =
  match t with
  | c :: _ =>
      if cls c then Some (drop_while cls t, [(1%nat, take_while cls t)])
      else None
  | [] => None
  end.
Proof.
  cbn [rmatch].
  rewrite (plus_cls_longest cls
             (fun s' => (s', [(1%nat, firstn (length t - length s') t)]))).
  rewrite firstn_take_while. reflexivity.
Qed.

Lemma match_at_after_literal (pre : text) (cls : N -> bool) (s : text) :
  match_at (lit pre @@ Grp 1 (Plus cls)) s =
  if starts_with pre s then
    match skipn (length pre) s with
    | c :: t =>
        if cls c
        then Some (drop_while cls (c :: t), [(1%nat, take_while cls (c :: t))])
        else None
    | [] => None
    end
  else None.
Proof.
  unfold match_at. rewrite rmatch_cat, rmatch_lit.
  destruct (starts_with pre s); [|reflexivity]. rewrite match_at_capture.
  destruct (skipn (length pre) s); reflexivity.
Qed.

(** [re.search] reports the leftmost position at which the pattern
    matches. *)
Lemma search_leftmost (r : regex) (s : text) :
  match search r s with
  | Some g =>
      exists pre t rest,
        s = pre ++ t /\ match_at r t = Some (rest, g)
        /\ forall pre' t', s = pre' ++ t' ->
                           (length pre' < length pre)%nat ->
                           match_at r t' = None
  | None => forall pre t, s = pre ++ t -> match_at r t = None
  end.
Proof.
  induction s as [|c s IH]; cbn [search].
  - destruct (match_at r []) as [[rest g]|] eqn:E.
    + exists [], [], rest. repeat split; try assumption.
      intros pre' t' _ Hl. cbn in Hl. lia.
    + intros pre t H. symmetry in H. apply app_eq_nil in H.
      destruct H as [_ ->]. exact E.
  - destruct (match_at r (c :: s)) as [[rest g]|] eqn:E.
    + exists [], (c :: s), rest. repeat split; try assumption.
      intros pre' t' _ Hl. cbn in Hl. lia.
    + destruct (search r s) as [g|].
      * destruct IH as (pre & t & rest & -> & Hm & Hmin).
        exists (c :: pre), t, rest. repeat split; try assumption.
        intros [|x pre'] t' H Hl.
        -- cbn [app] in H. subst t'. exact E.
        -- injection H as _ H. apply (Hmin pre' t' H). cbn [length] in Hl. lia.
      * intros [|x pre] t H.
        -- cbn [app] in H. subst t. exact E.
        -- injection H as _ H. apply (IH pre t H).
Qed.

(** X6: when the winner pattern is found, the name recorded is the longest
    run of word characters right after the first "The winner was " that is
    followed by a word character; when it is not found, no such place
    exists in the text. *)
Theorem winner_is_first_word_after_announcement (out : text) :
  match search winner_re out with
  | Some g =>
      exists pre rest,
        out = pre ++ "The winner was " ++ group 1 g ++ rest
        /\ group 1 g <> []
        /\ Forall (fun c => word c = true) (group 1 g)
        /\ (forall c rest', rest = c :: rest' -> word c = false)
        /\ (forall pre' c t,
              out = pre' ++ "The winner was " ++ c :: t -> word c = true ->
              (length pre <= length pre')%nat)
  | None =>
      forall pre c t, out = pre ++ "The winner was " ++ c :: t ->
                      word c = false
  end.
Proof.
  assert (Hat : forall c t,
             word c = true ->
             match_at winner_re (codes "The winner was " ++ c :: t) <> None).
  { intros c t Hc. unfold winner_re. rewrite match_at_after_literal.
    rewrite starts_with_app, skipn_app, skipn_all, Nat.sub_diag.
    cbn [skipn app]. rewrite Hc. discriminate. }
  pose proof (search_leftmost winner_re out) as H.
  destruct (search winner_re out) as [g|].
  - destruct H as (pre & t & rest & -> & Hm & Hmin).
    unfold winner_re in Hm. rewrite match_at_after_literal in Hm.
    destruct (starts_with (codes "The winner was ") t) eqn:Es; [|discriminate].
    apply starts_with_split in Es.
    destruct (skipn (length (codes "The winner was ")) t) as [|c t2] eqn:Et;
      [discriminate|].
    destruct (word c) eqn:Ec; [|discriminate].
    injection Hm as <- <-. cbn [group Nat.eqb].
    exists pre, (drop_while word (c :: t2)). split; [|split; [|split; [|split]]].
    + cbn [take_while drop_while]. rewrite Ec. cbn [app].
      rewrite <- (take_drop_while word t2). f_equal. exact Es.
    + cbn [take_while]. rewrite Ec. discriminate.
    + exact (take_while_all word (c :: t2)).
    + intros x rest' Hx. exact (drop_while_stops word (c :: t2) x rest' Hx).
    + intros pre' x t' Hout Hx.
      destruct (Nat.le_gt_cases (length pre) (length pre')) as [|Hlt];
        [assumption|exfalso].
      apply (Hat x t' Hx). exact (Hmin pre' _ Hout Hlt).
  - intros pre c t Hout.
    destruct (word c) eqn:Ec; [exfalso|reflexivity].
    apply (Hat c t Ec). exact (H pre _ Hout).
Qed.

Lemma match_at_link (s : text) :
  match_at link_re s =
  if starts_with (codes "Game result is in:") s then
    match skipn (length (codes "Game result is in:")) s with
    | w :: c :: t =>
        if space w && dot c
        then Some (drop_while dot (c :: t), [(1%nat, take_while dot (c :: t))])
        else None
    | _ => None
    end
  else None.
Proof.
  unfold match_at, link_re. rewrite rmatch_cat, rmatch_lit.
  destruct (starts_with (codes "Game result is in:") s); [|reflexivity].
  destruct (skipn (length (codes "Game result is in:")) s) as [|w t1];
    [reflexivity|].
  rewrite rmatch_cat. cbn [rmatch].
  destruct (space w); [|destruct t1; reflexivity].
  change (plus_cls dot t1
            (fun s' => Some (s', [(1%nat, firstn (length t1 - length s') t1)])))
    with (rmatch (Grp 1 (Plus dot)) t1 [] (fun s' g => Some (s', g))).
  rewrite match_at_capture. destruct t1 as [|c t]; [reflexivity|].
  cbn [andb]. reflexivity.
Qed.

(** X7: when the link pattern is found, the link recorded is what follows
    the first "Game result is in:" and one whitespace character, up to the
    end of that line; it is not empty and holds no newline.  When the
    pattern is not found, the text has no such place. *)
Theorem link_is_rest_of_first_result_line (out : text) :
  match search link_re out with
  | Some g =>
      exists pre w rest,
        out = pre ++ "Game result is in:" ++ w :: group 1 g ++ rest
        /\ space w = true
        /\ group 1 g <> []
        /\ ~ In 10 (group 1 g)
        /\ (rest = [] \/ exists rest', rest = 10 :: rest')
        /\ (forall pre' w' c t,
              out = pre' ++ "Game result is in:" ++ w' :: c :: t ->
              space w' = true -> c <> 10 ->
              (length pre <= length pre')%nat)
  | None =>
      forall pre w c t,
        out = pre ++ "Game result is in:" ++ w :: c :: t ->
        space w = false \/ c = 10
  end.
Proof.
  assert (Hdot : forall c, dot c = true <-> c <> 10).
  { intros c. unfold dot. rewrite negb_true_iff, N.eqb_neq. reflexivity. }
  assert (Hat : forall w c t,
             space w = true -> c <> 10 ->
             match_at link_re (codes "Game result is in:" ++ w :: c :: t)
             <> None).
  { intros w c t Hw Hc. rewrite match_at_link.
    rewrite starts_with_app, skipn_app, skipn_all, Nat.sub_diag.
    cbn [skipn app]. rewrite Hw. apply Hdot in Hc. rewrite Hc. discriminate. }
  pose proof (search_leftmost link_re out) as H.
  destruct (search link_re out) as [g|].
  - destruct H as (pre & t & rest & -> & Hm & Hmin).
    rewrite match_at_link in Hm.
    destruct (starts_with (codes "Game result is in:") t) eqn:Es;
      [|discriminate].
    apply starts_with_split in Es.
    destruct (skipn (length (codes "Game result is in:")) t)
      as [|w [|c t2]] eqn:Et; try discriminate.
    destruct (space w) eqn:Ew; [|discriminate].
    destruct (dot c) eqn:Ec; [|discriminate].
    cbn [andb] in Hm. injection Hm as <- <-. cbn [group Nat.eqb].
    exists pre, w, (drop_while dot (c :: t2)).
    split; [|split; [|split; [|split; [|split]]]].
    + cbn [take_while drop_while]. rewrite Ec. cbn [app].
      rewrite <- (take_drop_while dot t2). f_equal. exact Es.
    + exact Ew.
    + cbn [take_while]. rewrite Ec. discriminate.
    + intros Hin. pose proof (take_while_all dot (c :: t2)) as Hall.
      rewrite Forall_forall in Hall. apply Hall in Hin. discriminate Hin.
    + destruct (drop_while dot (c :: t2)) as [|x rest'] eqn:Ed; [left; reflexivity|].
      right. exists rest'. f_equal.
      apply drop_while_stops in Ed. unfold dot in Ed.
      apply negb_false_iff, N.eqb_eq in Ed. exact Ed.
    + intros pre' w' x t' Hout Hw' Hx.
      destruct (Nat.le_gt_cases (length pre) (length pre')) as [|Hlt];
        [assumption|exfalso].
      apply (Hat w' x t' Hw' Hx). exact (Hmin pre' _ Hout Hlt).
  - intros pre w c t Hout.
    destruct (space w) eqn:Ew; [|left; reflexivity].
    destruct (N.eq_dec c 10) as [|Hc]; [right; assumption|exfalso].
    apply (Hat w c t Ew Hc). exact (H pre _ Hout).
Qed.

(** ** The winner mapping is the tally of the winner list *)

Lemma text_eqb_eq (a b : text) : text_eqb a b = true <-> a = b.
Proof.
  unfold text_eqb. destruct (list_eq_dec N.eq_dec a b); split;
    intros H; try reflexivity; try assumption; try discriminate; contradiction.
Qed.

Lemma text_eqb_refl (a : text) : text_eqb a a = true.
Proof. apply text_eqb_eq. reflexivity. Qed.

Lemma lookup_incr (w k : text) (d : list (text * Z)) :
  lookup w (incr k d)
  = (lookup w d + (if text_eqb w k then 1 else 0))%Z.
Proof.
  induction d as [|[k' v] d IH]; cbn [incr lookup].
  - destruct (text_eqb w k); reflexivity.
  - destruct (text_eqb k k') eqn:Ek; cbn [lookup].
    + apply text_eqb_eq in Ek. subst k'.
      destruct (text_eqb w k); lia.
    + destruct (text_eqb w k') eqn:Ew; [|exact IH].
      apply text_eqb_eq in Ew. subst k'.
      destruct (text_eqb w k) eqn:Ewk; [|lia].
      apply text_eqb_eq in Ewk. subst k. rewrite text_eqb_refl in Ek.
      discriminate.
Qed.

Lemma count_name_snoc (w k : text) (l : list text) :
  count_name w (l ++ [k])
  = (count_name w l + (if text_eqb w k then 1 else 0))%Z.
Proof.
  unfold count_name. rewrite filter_app, length_app. cbn [filter].
  destruct (text_eqb w k); cbn [length]; lia.
Qed.

Lemma keys_incr (k : text) (d : list (text * Z)) :
  (In k (map fst d) /\ map fst (incr k d) = map fst d)
  \/ (~ In k (map fst d) /\ map fst (incr k d) = map fst d ++ [k]).
Proof.
  induction d as [|[k' v] d IH]; cbn [incr map fst].
  - right. split; [intros [] | reflexivity].
  - destruct (text_eqb k k') eqn:Ek.
    + apply text_eqb_eq in Ek. subst k'. left. split; [left|]; reflexivity.
    + cbn [map fst]. destruct IH as [[Hin E]|[Hn E]].
      * left. split; [right; exact Hin | rewrite E; reflexivity].
      * right. split; [|rewrite E; reflexivity].
        intros [->|Hin]; [|contradiction].
        rewrite text_eqb_refl in Ek. discriminate.
Qed.

Lemma lookup_of_entry (d : list (text * Z)) (w : text) (c : Z) :
  NoDup (map fst d) -> In (w, c) d -> lookup w d = c.
Proof.
  induction d as [|[k v] d IH]; intros Hnd Hin; [destruct Hin|].
  cbn [map fst] in Hnd. inversion Hnd as [|? ? Hk Hnd']; subst.
  cbn [lookup]. destruct Hin as [[= -> ->]|Hin].
  - rewrite text_eqb_refl. reflexivity.
  - destruct (text_eqb w k) eqn:E; [|exact (IH Hnd' Hin)].
    apply text_eqb_eq in E. subst k. exfalso. apply Hk.
    apply (in_map fst) in Hin. exact Hin.
Qed.

Lemma entry_of_key (d : list (text * Z)) (w : text) :
  In w (map fst d) -> In (w, lookup w d) d.
Proof.
  induction d as [|[k v] d IH]; intros Hin; [destruct Hin|].
  cbn [lookup]. destruct (text_eqb w k) eqn:E.
  - apply text_eqb_eq in E. subst k. left. reflexivity.
  - right. apply IH. destruct Hin as [Hk|Hin]; [|exact Hin].
    cbn [fst] in Hk. subst k. rewrite text_eqb_refl in E. discriminate.
Qed.

Lemma tally_after_trials (n : nat) (trials : list nat) :
  forall st : state,
    (NoDup (map fst (winners st))
     /\ (forall w, lookup w (winners st) = count_name w (winner_per_game st))
     /\ (forall w, In w (map fst (winners st)) <-> In w (winner_per_game st)))
    ->
    let st' := after_trials n trials st in
    NoDup (map fst (winners st'))
    /\ (forall w, lookup w (winners st') = count_name w (winner_per_game st'))
    /\ (forall w, In w (map fst (winners st')) <-> In w (winner_per_game st')).
Proof.
  unfold after_trials.
  induction trials as [|i trials IH]; intros st H; cbn [fold_left];
    [exact H|].
  apply IH. destruct H as (Hnd & Hl & Hk). unfold after_trial.
  destruct (search winner_re (cleaned (spawned st))) as [g|];
    cbn [winners winner_per_game]; [|repeat split; try assumption; apply Hk].
  set (k := group 1 g). split; [|split].
  - destruct (keys_incr k (winners st)) as [[_ E]|[Hn E]]; rewrite E;
      [exact Hnd|].
    apply NoDup_app; [exact Hnd | constructor; [intros [] | constructor] |].
    intros x Hx [<-|[]]. contradiction.
  - intros w. rewrite lookup_incr, count_name_snoc, Hl. reflexivity.
  - intros w. rewrite in_app_iff.
    destruct (keys_incr k (winners st)) as [[Hin E]|[Hn E]]; rewrite E.
    + rewrite Hk. split; [tauto|]. intros [H|[<-|[]]]; [exact H|].
      apply Hk. exact Hin.
    + rewrite in_app_iff, Hk. reflexivity.
Qed.

(** The lists a run ends with are those of its trial loop. *)
Lemma harness_lists (n : nat) :
  exists k,
    (k <= n)%nat
    /\ let st := snd (harness n initial) in
       let st1 := after_trials n (seq 0 k) initial in
       winners st = winners st1
       /\ winner_per_game st = winner_per_game st1
       /\ delayed_moves_per_game st = delayed_moves_per_game st1
       /\ game_links st = game_links st1
       /\ (spawned st = k \/ (spawned st = S k /\ (k < n)%nat)).
Proof.
  destruct (first_failure n) as [Hok|(f & Hf & Hbad & Hok)].
  - exists n. split; [lia|]. rewrite (harness_completes n Hok).
    cbn [snd finished set_file set_stdout winners winner_per_game
           delayed_moves_per_game game_links spawned].
    repeat split. left. apply spawned_after_all.
  - exists f. split; [lia|]. rewrite (harness_aborts n f Hf Hbad Hok).
    cbn [snd set_spawned set_stdout winners winner_per_game
           delayed_moves_per_game game_links spawned].
    repeat split. right. split; [reflexivity | exact Hf].
Qed.

(** X8: at the end of every run the winner mapping is the tally of the
    per-game winner list: its names are distinct, a name is in it exactly
    when it is in the list, and its count is the number of times the name
    appears there. *)
Theorem winners_is_tally_of_winner_per_game (n : nat) :
  let st := snd (harness n initial) in
  NoDup (map fst (winners st))
  /\ forall w c,
       In (w, c) (winners st)
       <-> In w (winner_per_game st)
           /\ c = count_name w (winner_per_game st).
Proof.
  destruct (harness_lists n) as (k & _ & Hw & Hg & _). cbv zeta.
  rewrite Hw, Hg.
  destruct (tally_after_trials n (seq 0 k) initial) as (Hnd & Hl & Hk).
  { cbn. repeat split; try constructor; intros []. }
  split; [exact Hnd|]. intros w c. split.
  - intros Hin. split.
    + apply Hk. apply (in_map fst) in Hin. exact Hin.
    + rewrite <- Hl. symmetry. apply lookup_of_entry; assumption.
  - intros [Hin ->]. rewrite <- Hl. apply entry_of_key, Hk, Hin.
Qed.

(** X9: in every run, whatever the children do, each of the winner list and
    the link list is at most as long as the delayed-move list, which has one
    entry per child that exited with status 0; no more than [num_runs]
    children are spawned; and the counts of the winner mapping add up to the
    length of the winner list.  So the file loop's index into the
    delayed-move list is always in range. *)
Theorem lists_stay_within_trials (n : nat) :
  let st := snd (harness n initial) in
  (length (winner_per_game st) <= length (delayed_moves_per_game st))%nat
  /\ (length (game_links st) <= length (delayed_moves_per_game st))%nat
  /\ (length (delayed_moves_per_game st) <= spawned st <= n)%nat
  /\ total (winners st) = Z.of_nat (length (winner_per_game st))
  /\ forall i, (i < length (game_links st))%nat ->
               index (delayed_moves_per_game st) i <> Raise IndexError.
Proof.
  destruct (harness_lists n) as (k & Hk & Hw & Hg & Hd & Hl & Hs). cbv zeta.
  rewrite Hw, Hg, Hd, Hl.
  destruct (trial_inv_after_trials n (seq 0 k) initial trial_inv_initial)
    as [_ Id Iw Il It _ _].
  rewrite spawned_after_trials in Id, Iw, Il. cbn [spawned initial Nat.add] in *.
  repeat split; try lia; try assumption.
  intros i Hi. unfold index.
  destruct (nth_error (delayed_moves_per_game
                         (after_trials n (seq 0 k) initial)) i) eqn:E;
    [discriminate|].
  apply nth_error_None in E. lia.
Qed.

Lemma existsb_text_eqb (w : text) (keys : list text) :
  existsb (text_eqb w) keys = true <-> In w keys.
Proof.
  rewrite existsb_exists. split.
  - intros (x & Hx & E). apply text_eqb_eq in E. subst x. exact Hx.
  - intros H. exists w. split; [exact H | apply text_eqb_refl].
Qed.

Lemma keys_after_trials (n : nat) (trials : list nat) :
  forall st : state,
    map fst (winners st) = first_seen (winner_per_game st) ->
    map fst (winners (after_trials n trials st))
    = first_seen (winner_per_game (after_trials n trials st)).
Proof.
  unfold after_trials.
  induction trials as [|i trials IH]; intros st H; cbn [fold_left];
    [exact H|].
  apply IH. unfold after_trial.
  destruct (search winner_re (cleaned (spawned st))) as [g|];
    cbn [winners winner_per_game]; [|exact H].
  unfold first_seen. rewrite fold_left_app. cbn [fold_left].
  fold (first_seen (winner_per_game st)). rewrite <- H.
  destruct (keys_incr (group 1 g) (winners st)) as [[Hin E]|[Hn E]];
    rewrite E.
  - apply existsb_text_eqb in Hin. rewrite Hin. reflexivity.
  - destruct (existsb (text_eqb (group 1 g)) (map fst (winners st))) eqn:Ex;
      [|reflexivity].
    apply existsb_text_eqb in Ex. contradiction.
Qed.

(** X11: the winner mapping lists the winners in the order of their first
    win, which is the order of the lines of the report. *)
Theorem winners_in_order_of_first_win (n : nat) :
  map fst (winners (snd (harness n initial)))
  = first_seen (winner_per_game (snd (harness n initial))).
Proof.
  destruct (harness_lists n) as (k & _ & Hw & Hg & _). cbv zeta in Hw, Hg.
  rewrite Hw, Hg. apply keys_after_trials. reflexivity.
Qed.

(** ** The warning and its index list *)

Lemma fold_max_upper (l : list Z) :
  forall x : Z,
    In (fold_left Z.max l x) (x :: l)
    /\ forall y, In y (x :: l) -> (y <= fold_left Z.max l x)%Z.
Proof.
  induction l as [|z l IH]; intros x; cbn [fold_left].
  - split; [left; reflexivity|]. intros y [->|[]]. lia.
  - destruct (IH (Z.max x z)) as [Hin Hub]. split.
    + destruct Hin as [E|Hin]; [|right; right; exact Hin].
      rewrite <- E. destruct (Z.max_spec x z) as [[_ ->]|[_ ->]];
        [right; left | left]; reflexivity.
    + intros y Hy.
      assert (Hm : (Z.max x z <= fold_left Z.max l (Z.max x z))%Z)
        by (apply Hub; left; reflexivity).
      destruct Hy as [->|[->|Hy]]; [lia | lia |].
      apply Hub. right. exact Hy.
Qed.

Lemma in_enumerate_from (l : list Z) :
  forall (a i : nat) (x : Z),
    In (i, x) (combine (seq a (length l)) l)
    <-> (a <= i)%nat /\ nth_error l (i - a) = Some x.
Proof.
  induction l as [|z l IH]; intros a i x; cbn [length seq combine].
  - split; [intros [] | intros [_ H]].
    destruct (i - a)%nat; discriminate.
  - cbn [In]. rewrite IH. split.
    + intros [[= <- <-]|[Hle H]].
      * rewrite Nat.sub_diag. split; [lia | reflexivity].
      * split; [lia|]. replace (i - a)%nat with (S (i - S a)) by lia.
        exact H.
    + intros [Hle H]. destruct (Nat.eq_dec a i) as [->|Hne].
      * left. rewrite Nat.sub_diag in H. injection H as ->. reflexivity.
      * right. split; [lia|].
        replace (i - a)%nat with (S (i - S a)) in H by lia. exact H.
Qed.

Lemma in_indices_over (b : Z) (l : list Z) (i : nat) :
  In (int_of_nat i) (indices_over b l)
  <-> exists x, nth_error l i = Some x /\ (b < x)%Z.
Proof.
  unfold indices_over, enumerate, int_of_nat. rewrite in_map_iff. split.
  - intros ([j x] & E & Hin). cbn [fst] in E. apply Nat2Z.inj in E. subst j.
    apply filter_In in Hin. destruct Hin as [Hin Hx]. cbn [snd] in Hx.
    apply in_enumerate_from in Hin. destruct Hin as [_ Hin].
    rewrite Nat.sub_0_r in Hin. exists x. split; [exact Hin | lia].
  - intros (x & Hn & Hx). exists (i, x). split; [reflexivity|].
    apply filter_In. split.
    + apply in_enumerate_from. rewrite Nat.sub_0_r. split; [lia | exact Hn].
    + cbn [snd]. lia.
Qed.

(** X12: the list printed under the warning holds exactly the positions of
    the trials with more than ten delayed moves, and the warning's
    condition, that the maximum exceeds ten, holds exactly when that list
    is not empty. *)
Theorem warning_lists_exactly_the_slow_trials (l : list Z) :
  (forall i,
      In (int_of_nat i) (indices_over 10 l)
      <-> exists x, nth_error l i = Some x /\ (10 < x)%Z)
  /\ (forall z, In z (indices_over 10 l) -> exists i, z = int_of_nat i)
  /\ (forall m, py_max l = Ok m ->
                ((m >? 10)%Z = true <-> indices_over 10 l <> [])).
Proof.
  split; [intros i; apply in_indices_over|]. split.
  - intros z Hz. unfold indices_over in Hz. apply in_map_iff in Hz.
    destruct Hz as ([i x] & <- & _). exists i. reflexivity.
  - intros m Hm. destruct l as [|x l]; [discriminate|].
    cbn [py_max] in Hm. injection Hm as <-.
    destruct (fold_max_upper l x) as [Hin Hub].
    set (m := fold_left Z.max l x) in *. split.
    + intros Hgt. apply In_nth_error in Hin. destruct Hin as [i Hi].
      intros E.
      assert (H : In (int_of_nat i) (indices_over 10 (x :: l))).
      { apply in_indices_over. exists m. split; [exact Hi | lia]. }
      rewrite E in H. destruct H.
    + intros Hne. destruct (indices_over 10 (x :: l)) as [|z zs] eqn:E;
        [contradiction|].
      assert (Hz : In z (indices_over 10 (x :: l))) by (rewrite E; left; reflexivity).
      unfold indices_over in Hz. apply in_map_iff in Hz.
      destruct Hz as ([i y] & _ & Hf). apply filter_In in Hf.
      destruct Hf as [Hf Hy]. cbn [snd] in Hy.
      apply in_combine_r in Hf. apply Hub in Hf. lia.
Qed.

(** ** Rates that two decimals can show *)

(** X13: for fewer than [2^36] trials, whenever [count / N * 100] is a
    whole number of hundredths, the rate printed is exactly that number:
    a winner of every trial is shown 100.00, of three trials in four
    75.00. *)
Theorem win_rate_exact_when_representable (c n k : Z) :
  (1 <= c <= n)%Z -> (n < 2 ^ 36)%Z -> (10000 * c = k * n)%Z ->
  win_rate c n = Ok (two_decimals k).
Proof.
  intros Hc Hn Hk.
  destruct (win_rate_close c n Hc Hn) as (h & -> & _ & Hh).
  rewrite Hk in Hh.
  assert (E : h = k) by nia.
  rewrite E. reflexivity.
Qed.

(** ** No warning without a slow trial *)

Lemma rate_line_ends_with_paren (n : nat) (w : text) (c : Z) (line : text) :
  rate_line n w c = Ok line -> exists pre, line = pre ++ [41].
Proof.
  unfold rate_line. destruct (win_rate c (int_of_nat n)) as [rate|e];
    [|discriminate].
  intros [= <-].
  exists (w ++ codes ": " ++ str_int c ++ codes " wins (" ++ rate
          ++ codes "% win rate").
  change (codes "% win rate)") with (codes "% win rate" ++ [41]).
  rewrite <- !app_assoc. reflexivity.
Qed.

Lemma report_lines_quiet (n : nat) (delayed : list Z) (item : text * Z) :
  (forall x, In x delayed -> (x <= 10)%Z) ->
  ~ In (codes "WARNING: Some games had a lot of delayed moves!")
       (report_lines n delayed item).
Proof.
  intros Hq. unfold report_lines.
  destruct (rate_line n (fst item) (snd item)) as [line|e] eqn:El;
    [|intros []].
  destruct (py_max delayed) as [most|e] eqn:Em; [|intros []].
  destruct delayed as [|x l]; [discriminate|]. cbn [py_max] in Em.
  injection Em as <-. destruct (fold_max_upper l x) as [Hin _].
  apply Hq in Hin.
  destruct (Z.gtb_spec (fold_left Z.max l x) 10) as [Hgt|_]; [lia|].
  intros [E|[]]. apply rate_line_ends_with_paren in El.
  destruct El as [pre ->].
  apply (f_equal (fun t => last t 0)) in E. rewrite last_last in E.
  vm_compute in E. discriminate.
Qed.

(** X14: a run in which no trial recorded more than ten delayed moves never
    prints the warning, however it ends. *)
Theorem no_warning_without_slow_trial (n : nat) :
  (forall x, In x (delayed_moves_per_game (snd (harness n initial))) ->
             (x <= 10)%Z) ->
  ~ In (codes "WARNING: Some games had a lot of delayed moves!")
       (stdout (snd (harness n initial))).
Proof.
  destruct (first_failure n) as [Hok|(f & Hf & Hbad & Hok)].
  - rewrite (harness_completes n Hok).
    set (st := after_trials n (seq 0 n) initial).
    cbn [snd finished set_file set_stdout delayed_moves_per_game stdout].
    intros Hq Hin.
    destruct (trial_inv_after_trials n (seq 0 n) initial trial_inv_initial)
      as [_ _ _ _ _ _ Ho].
    fold st in Ho. rewrite Forall_forall in Ho.
    apply in_app_or in Hin. destruct Hin as [Hin|Hin].
    { apply Ho in Hin. vm_compute in Hin. discriminate. }
    apply in_app_or in Hin. destruct Hin as [Hin|Hin].
    { destruct Hin as [E|[E|[]]]; vm_compute in E; discriminate. }
    apply in_app_or in Hin. destruct Hin as [Hin|Hin].
    + apply in_flat_map in Hin. destruct Hin as (item & _ & Hin).
      exact (report_lines_quiet n _ item Hq Hin).
    + destruct (links_fit st); [|destruct Hin].
      destruct Hin as [E|[]]. vm_compute in E. discriminate.
  - rewrite (harness_aborts n f Hf Hbad Hok).
    set (st := after_trials n (seq 0 f) initial).
    cbn [snd set_spawned set_stdout stdout]. intros _ Hin.
    destruct (trial_inv_after_trials n (seq 0 f) initial trial_inv_initial)
      as [_ _ _ _ _ _ Ho].
    fold st in Ho. rewrite Forall_forall in Ho.
    apply in_app_or in Hin. destruct Hin as [Hin|[E|[]]].
    + apply Ho in Hin. vm_compute in Hin. discriminate.
    + pose proof (progress_run_line n f) as Hp. rewrite E in Hp.
      vm_compute in Hp. discriminate.
Qed.

End Harness.

(** * The script on the bytes of its children *)

Section HarnessOnBytes.

Variable unicode_alnum : N -> bool.
Variable spawn : nat -> process.
Variable decode : list N -> option text.

Lemma bind_same {A B} (c1 c2 : M A) (k : A -> M B) (st : state) :
  c1 st = c2 st -> bind c1 k st = bind c2 k st.
Proof. intros H. unfold bind. rewrite H. reflexivity. Qed.

Lemma stops_none (k : nat) :
  stops spawn decode k = None
  <-> decode (printed (spawn k)) <> None /\ exit_status (spawn k) = 0%Z.
Proof.
  unfold stops. destruct (decode (printed (spawn k))) as [t|].
  - destruct (Z.eqb_spec (exit_status (spawn k)) 0) as [E|E].
    + split; [intros _; split; [discriminate | exact E] | reflexivity].
    + split; [discriminate | intros [_ H]; contradiction].
  - split; [discriminate | intros [H _]; contradiction].
Qed.

Lemma stops_some (k : nat) (e : exn) :
  stops spawn decode k = Some e ->
  (decode (printed (spawn k)) = None /\ e = UnicodeDecodeError)
  \/ (decode (printed (spawn k)) <> None
      /\ exit_status (spawn k) <> 0%Z
      /\ e = CalledProcessError (exit_status (spawn k))).
Proof.
  unfold stops. destruct (decode (printed (spawn k))) as [t|].
  - destruct (Z.eqb_spec (exit_status (spawn k)) 0) as [E|E]; [discriminate|].
    intros [= <-]. right. repeat split; [discriminate | exact E].
  - intros [= <-]. left. split; reflexivity.
Qed.

(** ** One trial *)

Lemma trial_bytes_decoded (n i : nat) (st : state) :
  decode (printed (spawn (spawned st))) <> None ->
  trial_bytes unicode_alnum spawn decode n i st
  = trial (as_text spawn decode) unicode_alnum n i st.
Proof.
  intros H.
  unfold trial_bytes, trial, bind, print, check_output_bytes, check_output,
    as_text.
  cbn [spawned set_stdout set_spawned returncode output].
  destruct (decode (printed (spawn (spawned st)))) as [t|]; [|contradiction].
  reflexivity.
Qed.

Lemma trial_bytes_ok (n i : nat) (st : state) :
  stops spawn decode (spawned st) = None ->
  trial_bytes unicode_alnum spawn decode n i st
  = (Ok tt, after_trial (as_text spawn decode) unicode_alnum n st i).
Proof.
  intros H. apply stops_none in H. destruct H as [Hd Hs].
  rewrite (trial_bytes_decoded n i st Hd). apply trial_ok. exact Hs.
Qed.

Lemma trial_bytes_stops (n i : nat) (st : state) (e : exn) :
  stops spawn decode (spawned st) = Some e ->
  trial_bytes unicode_alnum spawn decode n i st
  = (Raise e,
     set_spawned (S (spawned st))
       (set_stdout (stdout st ++ [run_line n i]) st)).
Proof.
  unfold stops, trial_bytes, bind, print, check_output_bytes.
  cbn [spawned set_stdout set_spawned].
  destruct (decode (printed (spawn (spawned st)))) as [t|].
  - destruct (exit_status (spawn (spawned st)) =? 0)%Z; [discriminate|].
    intros [= <-]. reflexivity.
  - intros [= <-]. reflexivity.
Qed.

(** ** The trial loop *)

Lemma trials_bytes_decoded (n k : nat) :
  forall (a : nat) (st : state),
    spawned st = a ->
    (forall j, (a <= j < a + k)%nat -> decode (printed (spawn j)) <> None) ->
    for_each (seq a k) (trial_bytes unicode_alnum spawn decode n) st
    = for_each (seq a k) (trial (as_text spawn decode) unicode_alnum n) st.
Proof.
  induction k as [|k IH]; intros a st Ha Hd; cbn [seq]; [reflexivity|].
  rewrite !for_each_cons.
  rewrite trial_bytes_decoded by (rewrite Ha; apply Hd; lia).
  destruct (Z.eq_dec (returncode (as_text spawn decode (spawned st))) 0)
    as [E|E].
  - rewrite (trial_ok _ _ n a st E). apply IH.
    + cbn [after_trial spawned]. lia.
    + intros j Hj. apply Hd. lia.
  - rewrite (trial_fails _ _ n a st E). reflexivity.
Qed.

Lemma trials_bytes_ok (n k : nat) :
  forall (a : nat) (st : state),
    spawned st = a ->
    (forall j, (a <= j < a + k)%nat -> stops spawn decode j = None) ->
    for_each (seq a k) (trial_bytes unicode_alnum spawn decode n) st
    = (Ok tt, after_trials (as_text spawn decode) unicode_alnum n (seq a k) st).
Proof.
  unfold after_trials.
  induction k as [|k IH]; intros a st Ha Hok; cbn [seq fold_left].
  - reflexivity.
  - rewrite for_each_cons, trial_bytes_ok by (rewrite Ha; apply Hok; lia).
    apply IH.
    + cbn [after_trial spawned]. lia.
    + intros j Hj. apply Hok. lia.
Qed.

Lemma trials_bytes_stop (n k : nat) :
  forall (a f : nat) (st : state) (e : exn),
    spawned st = a ->
    (a <= f < a + k)%nat ->
    (forall j, (a <= j < f)%nat -> stops spawn decode j = None) ->
    stops spawn decode f = Some e ->
    let st' :=
      after_trials (as_text spawn decode) unicode_alnum n (seq a (f - a)) st in
    for_each (seq a k) (trial_bytes unicode_alnum spawn decode n) st
    = (Raise e,
       set_spawned (S f) (set_stdout (stdout st' ++ [run_line n f]) st')).
Proof.
  unfold after_trials.
  induction k as [|k IH]; intros a f st e Ha Hf Hok Hbad; [lia|].
  cbn [seq]. rewrite for_each_cons.
  destruct (Nat.eq_dec a f) as [->|Hne].
  - rewrite Nat.sub_diag. cbn [seq fold_left].
    rewrite (trial_bytes_stops n f st e) by (rewrite Ha; exact Hbad).
    rewrite Ha. reflexivity.
  - rewrite trial_bytes_ok by (rewrite Ha; apply Hok; lia).
    replace (f - a)%nat with (S (f - S a)) by lia. cbn [seq fold_left].
    apply IH; [cbn [after_trial spawned]; lia | lia | | exact Hbad].
    intros j Hj. apply Hok. lia.
Qed.

Lemma first_stop (n : nat) :
  (forall j, (j < n)%nat -> stops spawn decode j = None)
  \/ exists f e, (f < n)%nat /\ stops spawn decode f = Some e
                 /\ forall j, (j < f)%nat -> stops spawn decode j = None.
Proof.
  induction n as [|n [IH|(f & e & Hf & Hbad & Hok)]].
  - left. intros j Hj. lia.
  - destruct (stops spawn decode n) as [e|] eqn:E.
    + right. exists n, e. repeat split; [lia | exact E | exact IH].
    + left. intros j Hj. destruct (Nat.eq_dec j n) as [->|]; [exact E|].
      apply IH. lia.
  - right. exists f, e. repeat split; [lia | exact Hbad | exact Hok].
Qed.

(** ** The whole run *)

Lemma harness_bytes_decoded (n : nat) :
  (forall j, (j < n)%nat -> decode (printed (spawn j)) <> None) ->
  harness_bytes unicode_alnum spawn decode n initial
  = harness (as_text spawn decode) unicode_alnum n initial.
Proof.
  intros Hd. unfold harness_bytes, harness, range. apply bind_same.
  apply trials_bytes_decoded; [reflexivity|].
  intros j Hj. apply Hd. lia.
Qed.

Lemma harness_bytes_completes (n : nat) :
  (forall j, (j < n)%nat -> stops spawn decode j = None) ->
  let st :=
    after_trials (as_text spawn decode) unicode_alnum n (seq 0 n) initial in
  harness_bytes unicode_alnum spawn decode n initial
  = (if links_fit st then Ok tt else Raise IndexError, finished n st).
Proof.
  intros Hok st. rewrite harness_bytes_decoded.
  - apply harness_completes. intros j Hj. apply (stops_none j), Hok, Hj.
  - intros j Hj. apply (stops_none j), Hok, Hj.
Qed.

Lemma harness_bytes_stops (n f : nat) (e : exn) :
  (f < n)%nat ->
  stops spawn decode f = Some e ->
  (forall j, (j < f)%nat -> stops spawn decode j = None) ->
  let st :=
    after_trials (as_text spawn decode) unicode_alnum n (seq 0 f) initial in
  harness_bytes unicode_alnum spawn decode n initial
  = (Raise e, set_spawned (S f) (set_stdout (stdout st ++ [run_line n f]) st)).
Proof.
  intros Hf Hbad Hok st. unfold harness_bytes, range. unfold bind at 1.
  rewrite (trials_bytes_stop n n 0 f initial e);
    [|reflexivity|lia|intros j Hj; apply Hok; lia|exact Hbad].
  rewrite Nat.sub_0_r. reflexivity.
Qed.

Lemma report_on_empty_list (n : nat) (winner line : text) (count : Z)
  (st : state) :
  delayed_moves_per_game st = [] ->
  rate_line n winner count = Ok line ->
  report n (winner, count) st
  = (Raise ValueError, set_stdout (stdout st ++ [line]) st).
Proof.
  intros Hd Hr. unfold report, bind, lift, print, get. rewrite Hr.
  cbn [delayed_moves_per_game set_stdout]. rewrite Hd. reflexivity.
Qed.

(** ** The claims *)

(** C3, as amended: a run of one or more trials ends with an empty
    delayed-move list only when its first child stopped it, by output that
    does not decode or by a non-zero exit status; the run has then ended at
    that child, with its first progress line alone on the console and no
    links file, so the summary never takes a maximum in it.  A run that gets
    to the summary has one delayed-move entry per trial.  The maximum itself
    is unguarded: the body of the summary loop raises ValueError whenever it
    runs on an empty delayed-move list. *)
Theorem empty_delayed_list_only_when_first_child_stops (n : nat) :
  (1 <= n)%nat ->
  let r := harness_bytes unicode_alnum spawn decode n initial in
  (delayed_moves_per_game (snd r) = [] ->
   ((decode (printed (spawn 0)) = None /\ fst r = Raise UnicodeDecodeError)
    \/ (decode (printed (spawn 0)) <> None
        /\ exit_status (spawn 0) <> 0%Z
        /\ fst r = Raise (CalledProcessError (exit_status (spawn 0)))))
   /\ spawned (snd r) = 1%nat
   /\ file (snd r) = None
   /\ stdout (snd r) = [run_line n 0])
  /\ (In (codes "Results:") (stdout (snd r)) ->
      length (delayed_moves_per_game (snd r)) = n)
  /\ (forall (st : state) (winner line : text) (count : Z),
        delayed_moves_per_game st = [] ->
        rate_line n winner count = Ok line ->
        fst (report n (winner, count) st) = Raise ValueError).
Proof.
  intros Hn. cbv zeta.
  split; [|split];
    [| |intros st winner line count Hd Hr;
        rewrite (report_on_empty_list n winner line count st Hd Hr);
        reflexivity].
  - destruct (first_stop n) as [Hok|(f & e & Hf & Hbad & Hok)].
    + rewrite (harness_bytes_completes n Hok).
      set (st := after_trials (as_text spawn decode) unicode_alnum n
                   (seq 0 n) initial).
      destruct (trial_inv_after_trials (as_text spawn decode) unicode_alnum
                  n (seq 0 n) initial trial_inv_initial)
        as [_ Hd _ _ _ _ _].
      fold st in Hd. unfold st in Hd at 2. rewrite spawned_after_all in Hd.
      cbn [snd finished set_file set_stdout delayed_moves_per_game].
      intros E. rewrite E in Hd. cbn [length] in Hd. lia.
    + rewrite (harness_bytes_stops n f e Hf Hbad Hok).
      set (st := after_trials (as_text spawn decode) unicode_alnum n
                   (seq 0 f) initial).
      destruct (trial_inv_after_trials (as_text spawn decode) unicode_alnum
                  n (seq 0 f) initial trial_inv_initial)
        as [_ Hd _ _ _ _ _].
      fold st in Hd. unfold st in Hd at 2.
      rewrite spawned_after_trials in Hd. cbn [spawned initial Nat.add] in Hd.
      cbn [fst snd set_spawned set_stdout delayed_moves_per_game spawned file
             stdout].
      intros E. rewrite E in Hd. cbn [length] in Hd.
      assert (Ef : f = 0%nat) by lia. subst f. unfold st.
      cbn [seq after_trials fold_left initial stdout file app].
      split; [|repeat split].
      destruct (stops_some 0 e Hbad) as [[H1 ->]|(H1 & H2 & ->)].
      * left. split; [exact H1 | reflexivity].
      * right. repeat split; assumption.
  - destruct (first_stop n) as [Hok|(f & e & Hf & Hbad & Hok)].
    + rewrite (harness_bytes_completes n Hok).
      set (st := after_trials (as_text spawn decode) unicode_alnum n
                   (seq 0 n) initial).
      destruct (trial_inv_after_trials (as_text spawn decode) unicode_alnum
                  n (seq 0 n) initial trial_inv_initial)
        as [_ Hd _ _ _ _ _].
      fold st in Hd. unfold st in Hd at 2. rewrite spawned_after_all in Hd.
      cbn [snd finished set_file set_stdout delayed_moves_per_game].
      intros _. exact Hd.
    + rewrite (harness_bytes_stops n f e Hf Hbad Hok).
      set (st := after_trials (as_text spawn decode) unicode_alnum n
                   (seq 0 f) initial).
      destruct (trial_inv_after_trials (as_text spawn decode) unicode_alnum
                  n (seq 0 f) initial trial_inv_initial)
        as [_ _ _ _ _ _ Hout].
      fold st in Hout.
      cbn [snd set_spawned set_stdout stdout]. intros Hin. exfalso.
      apply in_app_or in Hin. destruct Hin as [Hin|[E|[]]].
      * rewrite Forall_forall in Hout. apply Hout in Hin. discriminate.
      * pose proof (progress_run_line n f) as Hp. rewrite E in Hp.
        discriminate.
Qed.

(** * Further properties of the script on bytes *)

(** X10: how a run of one or more trials can end, for children that run to
    their exit.  It ends normally exactly when the output of every child
    decodes, every child exits with status 0, and at least as many winners
    as links were recorded; it raises IndexError exactly when every output
    decodes, every child exits with status 0, and more links than winners
    were recorded; any other exception comes from the first child [f] that
    stops the run: UnicodeDecodeError when its output does not decode,
    whatever its exit status, and otherwise the CalledProcessError of its
    non-zero status.  So the division of the win rate never divides by zero
    and never overflows. *)
Theorem run_outcomes (n : nat) :
  (1 <= n)%nat ->
  let r := harness_bytes unicode_alnum spawn decode n initial in
  (fst r = Ok tt
   <-> (forall j, (j < n)%nat ->
                  decode (printed (spawn j)) <> None
                  /\ exit_status (spawn j) = 0%Z)
       /\ (length (game_links (snd r))
           <= length (winner_per_game (snd r)))%nat)
  /\ (fst r = Raise IndexError
      <-> (forall j, (j < n)%nat ->
                     decode (printed (spawn j)) <> None
                     /\ exit_status (spawn j) = 0%Z)
          /\ (length (winner_per_game (snd r))
              < length (game_links (snd r)))%nat)
  /\ forall e,
       fst r = Raise e ->
       e = IndexError
       \/ exists f,
            (f < n)%nat
            /\ (forall j, (j < f)%nat ->
                          decode (printed (spawn j)) <> None
                          /\ exit_status (spawn j) = 0%Z)
            /\ ((decode (printed (spawn f)) = None
                 /\ e = UnicodeDecodeError)
                \/ (decode (printed (spawn f)) <> None
                    /\ exit_status (spawn f) <> 0%Z
                    /\ e = CalledProcessError (exit_status (spawn f)))).
Proof.
  intros _. cbv zeta.
  destruct (first_stop n) as [Hok|(f & e0 & Hf & Hbad & Hok)].
  - assert (Hall : forall j, (j < n)%nat ->
                     decode (printed (spawn j)) <> None
                     /\ exit_status (spawn j) = 0%Z).
    { intros j Hj. apply (stops_none j), Hok, Hj. }
    rewrite (harness_bytes_completes n Hok).
    set (st := after_trials (as_text spawn decode) unicode_alnum n
                 (seq 0 n) initial).
    cbn [fst snd finished set_file set_stdout game_links winner_per_game].
    unfold links_fit.
    destruct (Nat.leb_spec (length (game_links st))
                (length (winner_per_game st))) as [Hle|Hgt].
    + split; [|split].
      * split; [intros _; split; assumption | reflexivity].
      * split; [discriminate | intros [_ H]; lia].
      * discriminate.
    + split; [|split].
      * split; [discriminate | intros [_ H]; lia].
      * split; [intros _; split; assumption | reflexivity].
      * intros e [= <-]. left. reflexivity.
  - assert (Hnot : ~ (forall j, (j < n)%nat ->
                        decode (printed (spawn j)) <> None
                        /\ exit_status (spawn j) = 0%Z)).
    { intros H. apply (stops_none f) in H; [|exact Hf].
      rewrite H in Hbad. discriminate. }
    assert (He0 : e0 <> IndexError).
    { destruct (stops_some f e0 Hbad) as [[_ ->]|(_ & _ & ->)]; discriminate. }
    rewrite (harness_bytes_stops n f e0 Hf Hbad Hok). cbn [fst snd].
    split; [|split].
    + split; [discriminate|]. intros [H _]. contradiction.
    + split; [intros [= E]; congruence|]. intros [H _]. contradiction.
    + intros e [= <-]. right. exists f. split; [exact Hf|]. split.
      * intros j Hj. apply (stops_none j), Hok, Hj.
      * apply stops_some. exact Hbad.
Qed.


(** X17: output that does not decode stops the run before the exit status
    is looked at: when the first child to stop the run is one whose bytes do
    not decode, the run raises UnicodeDecodeError at it, also when it exited
    with status 0; no later child is spawned, nothing is recorded for it,
    the links file is never opened and no part of the report is printed. *)
Theorem undecodable_output_aborts_run (n f : nat) :
  (f < n)%nat ->
  decode (printed (spawn f)) = None ->
  (forall j, (j < f)%nat ->
             decode (printed (spawn j)) <> None
             /\ exit_status (spawn j) = 0%Z) ->
  let r := harness_bytes unicode_alnum spawn decode n initial in
  fst r = Raise UnicodeDecodeError
  /\ spawned (snd r) = S f
  /\ length (delayed_moves_per_game (snd r)) = f
  /\ file (snd r) = None
  /\ Forall (fun l => progress_line l = true) (stdout (snd r))
  /\ ~ In (codes "Results:") (stdout (snd r)).
Proof.
  intros Hf Hnone Hok. cbv zeta.
  assert (Hbad : stops spawn decode f = Some UnicodeDecodeError).
  { unfold stops. rewrite Hnone. reflexivity. }
  rewrite (harness_bytes_stops n f _ Hf Hbad
             (fun j Hj => proj2 (stops_none j) (Hok j Hj))).
  set (st := after_trials (as_text spawn decode) unicode_alnum n
               (seq 0 f) initial).
  destruct (trial_inv_after_trials (as_text spawn decode) unicode_alnum
              n (seq 0 f) initial trial_inv_initial)
    as [Hfile Hd _ _ _ _ Hout].
  fold st in Hfile, Hd, Hout. unfold st in Hd at 2.
  rewrite spawned_after_trials in Hd. cbn [spawned initial Nat.add] in Hd.
  cbn [fst snd set_spawned set_stdout spawned file stdout
         delayed_moves_per_game].
  assert (Hall : Forall (fun l => progress_line l = true)
                   (stdout st ++ [run_line n f])).
  { apply Forall_app. split; [exact Hout|].
    constructor; [apply progress_run_line | constructor]. }
  repeat split; try assumption.
  intros Hin. rewrite Forall_forall in Hall. apply Hall in Hin.
  discriminate.
Qed.

(** X18: text read from a child holds no carriage return, so a captured
    link never ends in one. *)
Theorem text_read_has_no_carriage_return (st : state) (t : text) :
  fst (check_output_bytes spawn decode st) = Ok t -> ~ In 13 t.
Proof.
  unfold check_output_bytes.
  destruct (decode (printed (spawn (spawned st)))) as [b|]; [|discriminate].
  destruct (exit_status (spawn (spawned st)) =? 0)%Z; [|discriminate].
  cbn [fst]. intros [= <-]. clear.
  assert (H : forall k (u : text), (length u <= k)%nat ->
                ~ In 13 (universal_newlines u)).
  { induction k as [|k IH]; intros [|c u] Hk Hin;
      cbn [length] in Hk; try lia; try (destruct Hin; fail).
    cbn [universal_newlines] in Hin.
    destruct (N.eqb_spec c 13) as [Ec|Ec].
    - destruct Hin as [E|Hin]; [discriminate|].
      destruct u as [|d u]; [destruct Hin|].
      destruct (d =? 10).
      + apply (IH u); [cbn [length] in Hk; lia | exact Hin].
      + apply (IH (d :: u)); [lia | exact Hin].
    - destruct Hin as [E|Hin]; [congruence|].
      apply (IH u); [lia | exact Hin]. }
  apply (H (length b)). lia.
Qed.

End HarnessOnBytes.

(** * The model on sample runs *)

Local Open Scope Z_scope.

(** C1, as stated, fails: removing the inner sequence of ESC ESC [ m [ m
    joins the outer ESC with the trailing "[m", which a second pass
    removes. *)
Lemma strip_ansi_not_idempotent :
  strip_ansi (ESC :: ESC :: "[m" ++ "[m") = ESC :: "[m"
  /\ strip_ansi (strip_ansi (ESC :: ESC :: "[m" ++ "[m")) = []
  /\ strip_ansi (strip_ansi (ESC :: ESC :: "[m" ++ "[m"))
     <> strip_ansi (ESC :: ESC :: "[m" ++ "[m").
Proof. vm_compute. repeat split; discriminate. Qed.

Lemma strip_ansi_idempotent_on_well_formed_witness :
  escapes_well_formed (ESC :: "[31;1mhi" ++ ESC :: "[0m" ++ ESC :: "[K")
  /\ strip_ansi (strip_ansi (ESC :: "[31;1mhi" ++ ESC :: "[0m" ++ ESC :: "[K"))
     = strip_ansi (ESC :: "[31;1mhi" ++ ESC :: "[0m" ++ ESC :: "[K").
Proof.
  assert (H : escapes_well_formed
                (ESC :: "[31;1mhi" ++ ESC :: "[0m" ++ ESC :: "[K")).
  { apply escapes_well_formedb_sound. vm_compute. reflexivity. }
  split; [exact H|].
  apply (strip_ansi_idempotent_on_well_formed _ H).
Defined.

(** C2 on four games won by Alice, Bob, Alice, Alice, two of them with more
    than ten delayed moves: the warning and the index list are printed once
    for each of the two winners. *)
Theorem warning_printed_once_per_winner :
  main four_games ascii_only
  = (Ok tt,
     {| winners := [(codes "Alice", 3); (codes "Bob", 1)];
        winner_per_game := map codes ["Alice"; "Bob"; "Alice"; "Alice"];
        delayed_moves_per_game := [11; 0; 2; 12];
        game_links :=
          map codes ["http://x/1"; "http://x/2"; "http://x/3"; "http://x/4"];
        stdout :=
          map codes
            ["Run 1/4..."; "Winner: Alice"; "Run 2/4..."; "Winner: Bob";
             "Run 3/4..."; "Winner: Alice"; "Run 4/4..."; "Winner: Alice";
             ""; "Results:";
             "Alice: 3 wins (75.00% win rate)";
             "WARNING: Some games had a lot of delayed moves!"; "[0, 3]";
             "Bob: 1 wins (25.00% win rate)";
             "WARNING: Some games had a lot of delayed moves!"; "[0, 3]";
             "Game links can be found in stats_game_links.txt"];
        file :=
          Some (map (fun l => codes l ++ [10%N])
                  ["Winner: Alice, delayed_moves: 11, link: http://x/1";
                   "Winner: Bob, delayed_moves: 0, link: http://x/2";
                   "Winner: Alice, delayed_moves: 2, link: http://x/3";
                   "Winner: Alice, delayed_moves: 12, link: http://x/4"]);
        spawned := 4 |}).
Proof. vm_compute. reflexivity. Qed.

(** Without any winner the warning is not printed at all, however many
    delayed moves there were. *)
Lemma warning_skipped_without_winner :
  delayed_moves_per_game (snd (main no_winner_games ascii_only))
  = [11; 11; 11; 11]
  /\ stdout (snd (main no_winner_games ascii_only))
     = map codes ["Run 1/4..."; "Run 2/4..."; "Run 3/4..."; "Run 4/4...";
                  ""; "Results:"].
Proof. vm_compute. split; reflexivity. Qed.

(** C3, as stated, fails: when the first of the four games exits with
    status 1, no trial completes and the delayed-move list is empty, yet no
    maximum is taken: the run has ended at that child with its
    CalledProcessError, before the summary. *)
Lemma first_child_failure_ends_run_before_summary :
  main_bytes ascii_only first_game_fails ascii_strict
  = (Raise (CalledProcessError 1),
     {| winners := []; winner_per_game := []; delayed_moves_per_game := [];
        game_links := [];
        stdout := [codes "Run 1/4..."];
        file := None;
        spawned := 1 |}).
Proof. vm_compute. reflexivity. Qed.

Lemma empty_delayed_list_only_when_first_child_stops_witness :
  let r := harness_bytes ascii_only first_game_fails ascii_strict 4 initial in
  delayed_moves_per_game (snd r) = []
  /\ fst r = Raise (CalledProcessError (exit_status (first_game_fails 0)))
  /\ spawned (snd r) = 1%nat
  /\ file (snd r) = None
  /\ stdout (snd r) = [run_line 4 0]
  /\ fst (report 4 (codes "Alice", 1) initial) = Raise ValueError.
Proof.
  assert (Hn : (1 <= 4)%nat) by lia.
  destruct (empty_delayed_list_only_when_first_child_stops
              ascii_only first_game_fails ascii_strict 4 Hn)
    as (Hempty & _ & Hmax).
  assert (E : delayed_moves_per_game
                (snd (harness_bytes ascii_only first_game_fails ascii_strict
                        4 initial)) = []).
  { vm_compute. reflexivity. }
  destruct (Hempty E) as (Hexn & Hs & Hf & Ho).
  cbv zeta. split; [exact E|]. split.
  { destruct Hexn as [[Hd _]|(_ & _ & Hr)]; [discriminate Hd | exact Hr]. }
  split; [exact Hs|]. split; [exact Hf|]. split; [exact Ho|].
  apply (Hmax initial (codes "Alice")
           (codes "Alice: 1 wins (25.00% win rate)") 1); reflexivity.
Defined.

Lemma win_counts_sum_to_trials_witness :
  fst (harness four_games ascii_only 4 initial) = Ok tt
  /\ total (winners (snd (harness four_games ascii_only 4 initial)))
     = Z.of_nat 4.
Proof.
  apply (win_counts_sum_to_trials four_games ascii_only 4).
  - lia.
  - intros j Hj.
    do 4 (destruct j as [|j];
          [vm_compute; split; [reflexivity | discriminate]|]).
    lia.
Defined.

(** The bound on the number of trials is not idle: for 582485169127 wins
    in 1070056340823 trials, more than any run can spawn, the rate would be
    shown as 54.44 although the quotient is nearer to 54.43. *)
Lemma win_rate_misses_nearest_hundredth :
  win_rate 582485169127 1070056340823 = Ok (codes "54.44")
  /\ two_decimals 5444 = codes "54.44"
  /\ 1070056340823 < 2 * Z.abs (5444 * 1070056340823 - 10000 * 582485169127)
  /\ 2 * Z.abs (5443 * 1070056340823 - 10000 * 582485169127) <= 1070056340823.
Proof. vm_compute. repeat split; try reflexivity; discriminate. Qed.

(** At an exact tie either neighbour is shown: 14.375 as 14.37, 9.375 as
    9.38. *)
Lemma win_rate_ties :
  win_rate 23 160 = Ok (codes "14.37")
  /\ win_rate 3 32 = Ok (codes "9.38")
  /\ win_rate 1 32 = Ok (codes "3.12").
Proof. vm_compute. repeat split. Qed.


Lemma delayed_count_is_number_of_occurrences_witness :
  delayed_moves_per_game (snd (trial four_games ascii_only 4 0 initial))
  = delayed_moves_per_game initial
    ++ [Z.of_nat (length (occurrences warning_phrase
                            (cleaned four_games (spawned initial))))]
  /\ length (occurrences warning_phrase
               (cleaned four_games (spawned initial))) = 11%nat.
Proof.
  split.
  - apply (delayed_count_is_number_of_occurrences four_games ascii_only
             4 0 initial).
    reflexivity.
  - vm_compute. reflexivity.
Defined.

(** C7 on four games whose first one prints a link but no winner: four
    links are recorded and three winners; the file gets three lines, each
    link paired with the winner of the game after it, and the run raises
    IndexError at the fourth link. *)
Theorem links_file_cut_short_by_missing_winner :
  fst (main first_winner_missing ascii_only) = Raise IndexError
  /\ winner_per_game (snd (main first_winner_missing ascii_only))
     = map codes ["Bob"; "Alice"; "Alice"]
  /\ game_links (snd (main first_winner_missing ascii_only))
     = map codes ["http://x/1"; "http://x/2"; "http://x/3"; "http://x/4"]
  /\ file (snd (main first_winner_missing ascii_only))
     = Some (map (fun l => codes l ++ [10%N])
               ["Winner: Bob, delayed_moves: 0, link: http://x/1";
                "Winner: Alice, delayed_moves: 0, link: http://x/2";
                "Winner: Alice, delayed_moves: 2, link: http://x/3"]).
Proof. vm_compute. repeat split. Qed.

Lemma missing_match_leaves_no_entry_witness :
  let st' := snd (trial first_winner_missing ascii_only 4 0 initial) in
  winner_per_game st' = []
  /\ winners st' = []
  /\ delayed_moves_per_game st' = [0]
  /\ game_links st' = [codes "http://x/1"].
Proof.
  destruct (missing_match_leaves_no_entry first_winner_missing ascii_only
              4 0 initial eq_refl) as (_ & Hd & Hw & _ & _).
  destruct (Hw eq_refl) as [Hw1 Hw2].
  cbv zeta. rewrite Hw1, Hw2, Hd. vm_compute. repeat split.
Defined.

Lemma failing_child_aborts_run_witness :
  exists f,
    (f < 4)%nat
    /\ returncode (third_game_fails f) <> 0
    /\ (forall j, (j < f)%nat -> returncode (third_game_fails j) = 0)
    /\ fst (harness third_game_fails ascii_only 4 initial)
       = Raise (CalledProcessError (returncode (third_game_fails f)))
    /\ spawned (snd (harness third_game_fails ascii_only 4 initial)) = S f
    /\ file (snd (harness third_game_fails ascii_only 4 initial)) = None
    /\ Forall (fun l => progress_line l = true)
         (stdout (snd (harness third_game_fails ascii_only 4 initial)))
    /\ ~ In (codes "Results:")
         (stdout (snd (harness third_game_fails ascii_only 4 initial))).
Proof.
  apply (failing_child_aborts_run third_game_fails ascii_only 4).
  exists 2%nat. split; [lia | discriminate].
Defined.

Lemma more_links_than_winners_crashes_witness :
  fst (harness first_winner_missing ascii_only 4 initial) = Raise IndexError
  /\ exists lines,
       file (snd (harness first_winner_missing ascii_only 4 initial))
       = Some lines
       /\ length lines = 3%nat.
Proof.
  destruct (more_links_than_winners_crashes first_winner_missing ascii_only 4)
    as (Hr & lines & Hf & Hlen & _).
  - intros j Hj. do 4 (destruct j as [|j]; [reflexivity|]). lia.
  - vm_compute. lia.
  - split; [exact Hr|]. exists lines. split; [exact Hf|].
    rewrite Hlen. vm_compute. reflexivity.
Defined.

(** ** Further properties on sample texts and runs *)

Lemma strip_ansi_keeps_plain_prefix_witness :
  strip_ansi (codes "score: " ++ ESC :: "[31m" ++ "12")
  = codes "score: " ++ strip_ansi (ESC :: "[31m" ++ "12").
Proof.
  apply (strip_ansi_keeps_plain_prefix (codes "score: ")).
  vm_compute. intros H.
  repeat (destruct H as [H|H]; [discriminate H|]). exact H.
Defined.

Lemma strip_ansi_removes_leading_sequence_witness :
  strip_ansi (ESC :: 91%N :: codes "1;31" ++ 109%N :: codes "red")
  = strip_ansi (codes "red").
Proof.
  apply (strip_ansi_removes_leading_sequence (codes "1;31") 109 (codes "red"));
    reflexivity.
Defined.


Lemma win_rate_exact_when_representable_witness :
  win_rate 3 4 = Ok (two_decimals 7500)
  /\ two_decimals 7500 = codes "75.00".
Proof.
  split.
  - apply (win_rate_exact_when_representable 3 4 7500); [lia | | reflexivity].
    vm_compute. reflexivity.
  - vm_compute. reflexivity.
Defined.

Lemma no_warning_without_slow_trial_witness :
  ~ In (codes "WARNING: Some games had a lot of delayed moves!")
       (stdout (snd (harness first_winner_missing ascii_only 4 initial))).
Proof.
  apply (no_warning_without_slow_trial first_winner_missing ascii_only 4).
  vm_compute. intros x H.
  repeat (destruct H as [H|H]; [subst x; discriminate|]). destruct H.
Defined.

(** ** The script on sample bytes *)


Lemma run_outcomes_witness :
  fst (harness_bytes ascii_only second_game_garbled ascii_strict 4 initial)
  = Raise UnicodeDecodeError
  /\ exists f,
       (f < 4)%nat
       /\ (forall j, (j < f)%nat ->
                     ascii_strict (printed (second_game_garbled j)) <> None
                     /\ exit_status (second_game_garbled j) = 0)
       /\ ascii_strict (printed (second_game_garbled f)) = None.
Proof.
  assert (Hn : (1 <= 4)%nat) by lia.
  destruct (run_outcomes ascii_only second_game_garbled ascii_strict 4 Hn)
    as (_ & _ & Hexn).
  assert (E : fst (harness_bytes ascii_only second_game_garbled ascii_strict
                     4 initial) = Raise UnicodeDecodeError).
  { vm_compute. reflexivity. }
  split; [exact E|].
  destruct (Hexn _ E) as [Hi|(f & Hf & Hok & [[Hd _]|(_ & _ & He)])];
    [discriminate Hi | | discriminate He].
  exists f. split; [exact Hf|]. split; [exact Hok | exact Hd].
Defined.

Lemma undecodable_output_aborts_run_witness :
  exit_status (second_game_garbled 1) = 0
  /\ let r :=
       harness_bytes ascii_only second_game_garbled ascii_strict 4 initial in
     fst r = Raise UnicodeDecodeError
     /\ spawned (snd r) = 2%nat
     /\ length (delayed_moves_per_game (snd r)) = 1%nat
     /\ file (snd r) = None
     /\ Forall (fun l => progress_line l = true) (stdout (snd r))
     /\ ~ In (codes "Results:") (stdout (snd r)).
Proof.
  split; [reflexivity|].
  apply (undecodable_output_aborts_run ascii_only second_game_garbled
           ascii_strict 4 1).
  - lia.
  - reflexivity.
  - intros j Hj. assert (j = 0%nat) as -> by lia.
    split; [discriminate | reflexivity].
Defined.

Lemma text_read_has_no_carriage_return_witness :
  fst (check_output_bytes crlf_games ascii_strict initial)
  = Ok (codes "Game result is in: http://x/1" ++ [10%N]
        ++ codes "The winner was Alice" ++ [10%N])
  /\ ~ In 13%N (codes "Game result is in: http://x/1" ++ [10%N]
                ++ codes "The winner was Alice" ++ [10%N]).
Proof.
  assert (E : fst (check_output_bytes crlf_games ascii_strict initial)
              = Ok (codes "Game result is in: http://x/1" ++ [10%N]
                    ++ codes "The winner was Alice" ++ [10%N])).
  { vm_compute. reflexivity. }
  split; [exact E|].
  apply (text_read_has_no_carriage_return crlf_games ascii_strict initial _ E).
Defined.
